(** * SlayerLegendCDN: the two index builders

    A shallow embedding of [scripts/build-game-asset-index.js] (the
    game-asset builder) and [scripts/generate-image-index.js] (the
    user-content builder), and the properties their specification states
    about the documents they write.

    Conventions of the embedding.
    - JavaScript strings are [string], a character standing for a byte of
      the UTF-8 form.  Splitting, searching and comparing are the same on
      bytes as on UTF-16 units for the ASCII separators the scripts use;
      [toLowerCase] and [length] are not.  The keywords, which are made
      with both, are proved of ASCII file names, under a hypothesis that
      says so; the test of a file name against the six extensions comes out
      the same on every name, no character outside ASCII being lowered to a
      letter of theirs.
    - A JavaScript [Set] is the list of its elements in insertion order.
    - The object [byCategory] is a [gmap] from keys to arrays of ids.
    - A sidecar is read by the schema of the specification: text fields, a
      list of tags, a pair of numbers; a field that is absent is [None].
    - What a script reads from the outside world (directory listings, file
      sizes, the result of decoding an image, the clock) is an explicit
      argument of its model; what it does to the outside world (the exit
      code, the files it writes, warnings and errors on the console) is the
      value the model returns.  A file is written as the document it
      holds, its serialisation left out.  The game-asset builder makes the
      directory of its output before it writes, and its write succeeds; the
      user-content builder does not, and its write throws when that
      directory is missing.
    - [glob.sync] on the pattern that the user-content builder makes of a
      sidecar's path is an argument of the model: the script does not
      escape the path, so glob reads the special characters in it, and the
      order of the matches differs between the versions of glob. *)

From Stdlib Require Import ZArith Ascii.
From stdpp Require Import gmap strings list sorting.

Local Open Scope Z_scope.

(** ** JavaScript string primitives *)

Module Js.

Definition is_digit (c : ascii) : bool :=
  let n := N_of_ascii c in ((48 <=? n) && (n <=? 57))%N.

Definition is_upper (c : ascii) : bool :=
  let n := N_of_ascii c in ((65 <=? n) && (n <=? 90))%N.


Definition lower_char (c : ascii) : ascii :=
  if is_upper c then ascii_of_N (N_of_ascii c + 32) else c.

(** [s.toLowerCase()] on an ASCII string: [A-Z] are lowered and nothing
    else is.  JavaScript lowers characters outside ASCII as well. *)
Fixpoint toLowerCase (s : string) : string :=
  match s with
  | "" => ""
  | String c s' => String (lower_char c) (toLowerCase s')
  end.

Fixpoint str_all (p : ascii → bool) (s : string) : bool :=
  match s with
  | "" => true
  | String c s' => p c && str_all p s'
  end.

(** [s.split(sep)] for a separator that is one character out of a class:
    ['/'], [/[_-]/], [/[/\\]/].  The result is never empty. *)
Fixpoint split (sep : ascii → bool) (s : string) : list string :=
  match s with
  | "" => [""]
  | String c s' =>
      if sep c then "" :: split sep s'
      else match split sep s' with
           | t :: ts => String c t :: ts
           | [] => [String c ""]
           end
  end.

Fixpoint take_while (p : ascii → bool) (s : string) : string :=
  match s with
  | "" => ""
  | String c s' => if p c then String c (take_while p s') else ""
  end.

Fixpoint drop_while (p : ascii → bool) (s : string) : string :=
  match s with
  | "" => ""
  | String c s' => if p c then drop_while p s' else s
  end.

(** [s.match(/[p]+/g)], with [null] read as the empty array: at each
    position the longest run of [p]-characters is matched and the search
    resumes behind it; where none starts the search moves on by one
    character.  [n] bounds the number of positions tried. *)
Fixpoint match_all_from (n : nat) (p : ascii → bool) (s : string) : list string :=
  match n with
  | O => []
  | S n' =>
      match s with
      | "" => []
      | String c s' =>
          if p c then String c (take_while p s') :: match_all_from n' p (drop_while p s')
          else match_all_from n' p s'
      end
  end.

Definition match_all (p : ascii → bool) (s : string) : list string :=
  match_all_from (String.length s) p s.

Definition is_slash (c : ascii) : bool := Ascii.eqb c "/".
Definition is_dot (c : ascii) : bool := Ascii.eqb c ".".
Definition is_backslash (c : ascii) : bool := Ascii.eqb c "\".
Definition is_underscore_or_dash (c : ascii) : bool :=
  Ascii.eqb c "_" || Ascii.eqb c "-".
Definition is_path_sep (c : ascii) : bool := is_slash c || is_backslash c.

(** The tail [[^/.]+$] of the extension pattern. *)
Definition ext_tail (s : string) : bool :=
  negb (String.eqb s "") && str_all (λ c, negb (is_slash c) && negb (is_dot c)) s.

(** [s.replace(/\.[^/.]+$/, '')]: the leftmost position at which the
    pattern matches is removed up to the end of the string. *)
Fixpoint strip_extension (s : string) : string :=
  match s with
  | "" => ""
  | String c s' =>
      if is_dot c && ext_tail s' then "" else String c (strip_extension s')
  end.

(** [s.replace(/\\/g, '/')] *)
Fixpoint backslash_to_slash (s : string) : string :=
  match s with
  | "" => ""
  | String c s' => String (if is_backslash c then "/"%char else c) (backslash_to_slash s')
  end.

(** [s.endsWith(suffix)] *)
Fixpoint endsWith (s suffix : string) : bool :=
  String.eqb s suffix ||
  match s with
  | "" => false
  | String _ s' => endsWith s' suffix
  end.

(** [s.startsWith(p)], returning what follows the prefix. *)
Fixpoint strip_prefix (p s : string) : option string :=
  match p, s with
  | "", _ => Some s
  | String a p', String b s' => if Ascii.eqb a b then strip_prefix p' s' else None
  | String _ _, "" => None
  end.

(** [s.slice(1)] *)
Definition slice_1 (s : string) : string :=
  match s with
  | "" => ""
  | String _ s' => s'
  end.

(** [keywords.add(x)] on a [Set] kept in insertion order. *)
Definition set_add (x : string) (l : list string) : list string :=
  if decide (x ∈ l) then l else l ++ [x].

End Js.

(** ** Node's [path] module, on normalised POSIX paths *)

Module Path.

(** [path.join(dir, name)] for a directory path without a trailing slash
    and a single name. *)
Definition join (dir name : string) : string := dir +:+ "/" +:+ name.

(** [path.basename(p)]: what follows the last slash. *)
Definition basename (p : string) : string :=
  List.last (Js.split Js.is_slash p) "".

(** [path.basename(p, suffix)]: the suffix is cut off the base name, unless
    the base name is the suffix itself. *)
Fixpoint cut_suffix (s suffix : string) : option string :=
  if String.eqb s suffix then Some ""
  else match s with
       | "" => None
       | String c s' => String c <$> cut_suffix s' suffix
       end.

Definition basename_without (p suffix : string) : string :=
  let b := basename p in
  match cut_suffix b suffix with
  | Some "" | None => b
  | Some stem => stem
  end.

(** [path.dirname(p)].  From the end of [p] the slashes are passed over,
    then the last segment; [p] is cut in front of the slash that is met
    next.  The first character of [p] is not looked at in this search:
    [before_last_segment] is given what follows it. *)
Fixpoint before_last_segment (p : string) : option string :=
  match p with
  | "" => None
  | String c p' =>
      match before_last_segment p' with
      | Some d => Some (String c d)
      | None =>
          if Js.is_slash c && negb (Js.str_all Js.is_slash p') then Some "" else None
      end
  end.

Definition dirname (p : string) : string :=
  match p with
  | "" => "."
  | String c p' =>
      match before_last_segment p' with
      | Some "" => if Js.is_slash c then "//" else String c ""
      | Some d => String c d
      | None => if Js.is_slash c then "/" else "."
      end
  end.

(** [path.extname(p)]: from the last dot of the base name on; empty when
    there is no dot or the only dot leads the base name. *)
Fixpoint from_last_dot (s : string) : option string :=
  match s with
  | "" => None
  | String c s' =>
      match from_last_dot s' with
      | Some e => Some e
      | None => if Js.is_dot c then Some s else None
      end
  end.

Definition extname (p : string) : string :=
  match basename p with
  | "" => ""
  | String c rest => default "" (from_last_dot rest)
  end.

(** [path.relative(from, to)] for a [to] below [from]. *)
Definition relative (from to : string) : string :=
  default to (Js.strip_prefix (from +:+ "/") to).

End Path.

(** ** Dates *)

Module Date.

(** A time value is the number of milliseconds since the epoch. *)

Definition ms_per_day : Z := 86400000.

(** Days since the epoch to the civil date (year, month, day) and back, in
    the proleptic Gregorian calendar. *)
Definition civil_of_days (z : Z) : Z * Z * Z :=
  let z := z + 719468 in
  let era := z / 146097 in
  let doe := z - era * 146097 in
  let yoe := (doe - doe / 1460 + doe / 36524 - doe / 146096) / 365 in
  let doy := doe - (365 * yoe + yoe / 4 - yoe / 100) in
  let mp := (5 * doy + 2) / 153 in
  let d := doy - (153 * mp + 2) / 5 + 1 in
  let m := if mp <? 10 then mp + 3 else mp - 9 in
  let y := yoe + era * 400 + (if m <=? 2 then 1 else 0) in
  (y, m, d).

Definition days_of_civil (y m d : Z) : Z :=
  let y := if m <=? 2 then y - 1 else y in
  let era := y / 400 in
  let yoe := y - era * 400 in
  let doy := (153 * (if 2 <? m then m - 3 else m + 9) + 2) / 5 + d - 1 in
  let doe := yoe * 365 + yoe / 4 - yoe / 100 + doy in
  era * 146097 + doe - 719468.

Definition digit_char (d : Z) : ascii := ascii_of_N (48 + Z.to_N d).

(** The last [w] decimal digits of [n]. *)
Fixpoint digits (w : nat) (n : Z) : string :=
  match w with
  | O => ""
  | S w' => digits w' (n / 10) +:+ String (digit_char (n mod 10)) ""
  end.

(** [new Date(t).toISOString()] *)
Definition toISOString (t : Z) : string :=
  let '(y, m, d) := civil_of_days (t / ms_per_day) in
  let r := t mod ms_per_day in
  let year :=
    if (0 <=? y) && (y <=? 9999) then digits 4 y
    else (if y <? 0 then "-" else "+") +:+ digits 6 (Z.abs y) in
  year +:+ "-" +:+ digits 2 m +:+ "-" +:+ digits 2 d +:+ "T" +:+
  digits 2 (r / 3600000) +:+ ":" +:+ digits 2 (r / 60000 mod 60) +:+ ":" +:+
  digits 2 (r / 1000 mod 60) +:+ "." +:+ digits 3 (r mod 1000) +:+ "Z".

Fixpoint number_of (acc : Z) (s : string) : Z :=
  match s with
  | "" => acc
  | String c s' => number_of (10 * acc + (Z.of_N (N_of_ascii c) - 48)) s'
  end.

Definition field (s : string) (start len : nat) : option Z :=
  let t := String.substring start len s in
  if decide (String.length t = len) then
    if Js.str_all Js.is_digit t then Some (number_of 0 t) else None
  else None.

Definition has_char (s : string) (i : nat) (c : ascii) : bool :=
  match String.get i s with
  | Some c' => Ascii.eqb c c'
  | None => false
  end.

Definition in_range (lo x hi : Z) : bool := (lo <=? x) && (x <=? hi).

(** The two forms of the ECMAScript date-time string format that sidecars
    carry: the date-only form [YYYY-MM-DD] (midnight UTC) and the form
    [YYYY-MM-DDTHH:mm:ss.sssZ] that [toISOString] prints.  A day up to 31 is
    taken in any month and runs over into the next one, as it does in V8.
    Every other string is taken as an invalid date; an engine may accept
    more. *)
Definition iso_parse (s : string) : option Z :=
  y ← field s 0 4;
  m ← field s 5 2;
  d ← field s 8 2;
  if has_char s 4 "-" && has_char s 7 "-" && in_range 1 m 12 && in_range 1 d 31 then
    let day := days_of_civil y m d in
    if decide (String.length s = 10%nat) then Some (day * ms_per_day)
    else if decide (String.length s = 24%nat) then
      hh ← field s 11 2;
      mm ← field s 14 2;
      ss ← field s 17 2;
      ms ← field s 20 3;
      if has_char s 10 "T" && has_char s 13 ":" && has_char s 16 ":" &&
         has_char s 19 "." && has_char s 23 "Z" &&
         in_range 0 mm 59 && in_range 0 ss 59 &&
         (in_range 0 hh 23 || (hh =? 24) && (mm =? 0) && (ss =? 0) && (ms =? 0))
      then Some (day * ms_per_day + hh * 3600000 + mm * 60000 + ss * 1000 + ms)
      else None
    else None
  else None.

End Date.

Global Arguments Date.toISOString : simpl never.

(** ** The game-asset builder: [scripts/build-game-asset-index.js] *)

Module GameAsset.

Record Dimensions := { width : Z; height : Z }.

(** What the script can learn about one file: [stat] is the result of
    [fs.stat] ([None] when it rejects), [decoded] the result of
    [sharp(..).metadata()] ([None] when it rejects; a missing [width] or
    [height] is the number [0]). *)
Record Stats := { size : Z; mtime : Z }.
Record File := { stat : option Stats; decoded : option Dimensions }.

(** One entry of [fs.readdir(dir, { withFileTypes: true })].  [listing] is
    what reading the subdirectory gives, [None] when that rejects;
    [DOther] is an entry that is neither a file nor a directory. *)
#[warnings="-register-all"] Inductive Dirent :=
  | DFile (name : string) (f : File)
  | DDir (name : string) (listing : option (list Dirent))
  | DOther (name : string).

Inductive Console :=
  | Error_reading_directory (dir : string)
  | Error_cdn_directory_not_found
  | Warn_no_images_found
  | Warn_could_not_read_dimensions (fullPath : string)
  | Error_failed_to_process (fullPath : string).

Record ImageEntry := {
  path : string;
  filename : string;
  category : string;
  filesize : Z;
  keywords : list string;
  lastModified : string;
  dimensions : option Dimensions
}.

Record ImageIndex := {
  version : string;
  base_path : string;
  totalImages : Z;
  generatedAt : string;
  images : list ImageEntry
}.

Global Instance game_Dimensions_eq_dec : EqDecision Dimensions.
Proof. solve_decision. Defined.
Global Instance game_ImageEntry_eq_dec : EqDecision ImageEntry.
Proof. solve_decision. Defined.
Global Instance game_ImageIndex_eq_dec : EqDecision ImageIndex.
Proof. solve_decision. Defined.

(** What one run of the process does: its exit code, the files it wrote
    and the warnings and errors it printed. *)
Record Outcome := {
  exit_code : Z;
  written : list (string * ImageIndex);
  console : list Console
}.

Definition image_extensions : list string :=
  [".jpg"; ".jpeg"; ".png"; ".webp"; ".gif"; ".svg"].

Definition is_image_name (name : string) : bool :=
  bool_decide (Js.toLowerCase (Path.extname name) ∈ image_extensions).

(** [getImagesInDirectory(dir)]: the full paths of the image files below
    [dir], each with the file it names. *)
Fixpoint images_of_entry (dir : string) (entry : Dirent) : list (string * File) :=
  let fullPath := Path.join dir (match entry with
                                 | DFile name _ | DDir name _ | DOther name => name
                                 end) in
  match entry with
  | DFile name f => if is_image_name name then [(fullPath, f)] else []
  | DDir _ (Some entries) => flat_map (images_of_entry fullPath) entries
  | DDir _ None => []
  | DOther _ => []
  end.

Definition getImagesInDirectory (dir : string) (listing : option (list Dirent))
  : list (string * File) :=
  match listing with
  | Some entries => flat_map (images_of_entry dir) entries
  | None => []
  end.

(** The [console.error] lines of the same traversal. *)
Fixpoint errors_of_entry (dir : string) (entry : Dirent) : list Console :=
  match entry with
  | DDir name (Some entries) => flat_map (errors_of_entry (Path.join dir name)) entries
  | DDir name None => [Error_reading_directory (Path.join dir name)]
  | DFile _ _ | DOther _ => []
  end.

Definition readdir_errors (dir : string) (listing : option (list Dirent)) : list Console :=
  match listing with
  | Some entries => flat_map (errors_of_entry dir) entries
  | None => [Error_reading_directory dir]
  end.

(** [args.indexOf(flag)]; [None] is [-1]. *)
Fixpoint indexOf (args : list string) (flag : string) : option nat :=
  match args with
  | [] => None
  | a :: args' => if decide (a = flag) then Some 0%nat else S <$> indexOf args' flag
  end.

(** [getCLIArg(flag)] over [args], the command line behind the script's
    name; [None] is [null]. *)
Definition getCLIArg (args : list string) (flag : string) : option string :=
  match indexOf args flag with
  | Some index =>
      match args !! S index with
      | Some "" | None => None
      | Some value => Some value
      end
  | None => None
  end.

(** [extractCategory(relativePath)], which the script keeps but no longer
    calls. *)
Definition extractCategory (relativePath : string) : string :=
  match filter (λ p, p ≠ "") (Js.split Js.is_slash relativePath) with
  | p :: _ => p
  | [] => "uncategorized"
  end.

(** [relativeToCdn.split(/[/\\]/)[0] || 'uncategorized'] *)
Definition category_of (relativeToCdn : string) : string :=
  match Js.split Js.is_path_sep relativeToCdn with
  | "" :: _ | [] => "uncategorized"
  | p :: _ => p
  end.

(** [getImageDimensions(fullPath)] *)
Definition getImageDimensions (fullPath : string) (f : File) : option Dimensions :=
  if String.eqb (Js.toLowerCase (Path.extname fullPath)) ".svg" then None
  else match decoded f with
       | Some d => if negb (width d =? 0) && negb (height d =? 0) then Some d else None
       | None => None
       end.

Definition dimension_warnings (fullPath : string) (f : File) : list Console :=
  if String.eqb (Js.toLowerCase (Path.extname fullPath)) ".svg" then []
  else match decoded f with
       | Some _ => []
       | None => [Warn_could_not_read_dimensions fullPath]
       end.

(** [generateKeywords(filename, category, imagePath)] *)
Definition generateKeywords (filename category imagePath : string) : list string :=
  let keywords := [] in
  let nameWithoutExt := Js.strip_extension filename in
  let keywords := Js.set_add nameWithoutExt keywords in
  let keywords := Js.set_add category keywords in
  let pathParts := filter (λ p, p ≠ "") (Js.split Js.is_slash imagePath) in
  let keywords :=
    foldl (λ keywords part,
             if decide (part ≠ "images" ∧ part ≠ "content" ∧ part ≠ filename)
             then Js.set_add part keywords else keywords)
          keywords pathParts in
  let lowerName := Js.toLowerCase nameWithoutExt in
  let numbers := Js.match_all Js.is_digit lowerName in
  let keywords := foldl (λ keywords num, Js.set_add num keywords) keywords numbers in
  let words := Js.split Js.is_underscore_or_dash lowerName in
  foldl (λ keywords word,
           if decide (1 < String.length word)%nat
           then Js.set_add word keywords else keywords)
        keywords words.

Section Builder.

(** The two resolved paths of the command line and the clock. *)
Variables (CDN_DIR OUTPUT_DIR : string) (now : Z).

Definition INDEX_PATH : string := Path.join OUTPUT_DIR "image-index.json".

(** The body of the loop over [imageFiles]: the entry, or [None] where the
    [catch] skips the file. *)
Definition image_entry (fullPath : string) (f : File) : option ImageEntry :=
  let relativeToCdn := Path.relative CDN_DIR fullPath in
  let imagePath := "/" +:+ Js.backslash_to_slash relativeToCdn in
  stats ← stat f;
  let filename := Path.basename fullPath in
  let category := category_of relativeToCdn in
  let dimensions := getImageDimensions fullPath f in
  let keywords := generateKeywords filename category imagePath in
  Some {| path := imagePath;
          filename := filename;
          category := category;
          filesize := size stats;
          keywords := keywords;
          lastModified := Date.toISOString (mtime stats);
          dimensions := dimensions |}.

Definition image_messages (fullPath : string) (f : File) : list Console :=
  match stat f with
  | Some _ => dimension_warnings fullPath f
  | None => [Error_failed_to_process fullPath]
  end.

(** What the script finds at [CDN_DIR]: nothing ([fs.access] rejects), or
    the listing of the scan root ([None] when reading it rejects). *)
Inductive ScanRoot :=
  | Missing
  | Present (listing : option (list Dirent)).

(** [buildImageIndexes()] *)
Definition buildImageIndexes (root : ScanRoot) : Outcome :=
  match root with
  | Missing =>
      {| exit_code := 1; written := []; console := [Error_cdn_directory_not_found] |}
  | Present listing =>
      let imageFiles := getImagesInDirectory CDN_DIR listing in
      let scan_log := readdir_errors CDN_DIR listing in
      if decide (length imageFiles = 0%nat) then
        {| exit_code := 0; written := []; console := scan_log ++ [Warn_no_images_found] |}
      else
        let images := omap (λ '(fullPath, f), image_entry fullPath f) imageFiles in
        let log := scan_log ++ flat_map (λ '(fullPath, f), image_messages fullPath f) imageFiles in
        let imageIndex :=
          {| version := "1.0";
             base_path := "/images";
             totalImages := Z.of_nat (length images);
             generatedAt := Date.toISOString now;
             images := images |} in
        {| exit_code := 0; written := [(INDEX_PATH, imageIndex)]; console := log |}
  end.

End Builder.

End GameAsset.

(** ** The user-content builder: [scripts/generate-image-index.js] *)

Module UserContent.

Record Dimensions := { width : Z; height : Z }.

(** A parsed sidecar, by the schema the script reads it with: every field
    is optional, a missing [width] or [height] is the number [0]. *)
Record Metadata := {
  md_filename : option string;
  md_name : option string;
  md_description : option string;
  md_category : option string;
  md_tags : option (list string);
  md_dimensions : option Dimensions;
  md_uploadedBy : option string;
  md_uploadDate : option string;
  md_uploadedAt : option string;
  md_format : option string
}.

(** What the script can learn about one file or directory: its size, what
    [JSON.parse] makes of its text ([None] when reading or parsing throws,
    or when the text is [null], whose fields cannot be read), what
    [sharp(..).metadata()] gives ([None] when it rejects), and whether it is
    a directory.  A directory can be neither read nor decoded. *)
Record File := {
  size : Z;
  json : option Metadata;
  decoded : option Dimensions;
  isDirectory : bool
}.

(** The files and directories below the working directory by path, in the
    order in which [glob] returns the sidecars among them.  A directory
    need not be listed when an entry below it is. *)
Abbreviation FileSystem := (list (string * File)).

Inductive Console :=
  | Warn_could_not_extract_dimensions (imageId : string)
  | Warn_image_file_not_found (imageId : string)
  | Error_processing (metaFile : string)
  | Error_fatal.

Record ImageEntry := {
  id : string;
  filename : string;
  name : string;
  description : string;
  path : option string;
  webpPath : option string;
  category : string;
  tags : list string;
  dimensions : Dimensions;
  filesize : Z;
  uploadedBy : string;
  uploadDate : string;
  format : string
}.

Record ImageIndex := {
  version : string;
  totalImages : Z;
  generatedDate : string;
  images : list ImageEntry;
  byCategory : gmap string (list string)
}.

Global Instance user_Dimensions_eq_dec : EqDecision Dimensions.
Proof. solve_decision. Defined.
Global Instance user_ImageEntry_eq_dec : EqDecision ImageEntry.
Proof. solve_decision. Defined.
Global Instance user_ImageIndex_eq_dec : EqDecision ImageIndex.
Proof. solve_decision. Defined.

Record Outcome := {
  exit_code : Z;
  written : list (string * ImageIndex);
  console : list Console
}.

Definition BASE_PATH : string := "user-content/images".
Definition OUTPUT_PATH : string := Path.join BASE_PATH "image-index.json".

Definition read (fs : FileSystem) (p : string) : option File :=
  snd <$> List.find (λ entry, String.eqb (fst entry) p) fs.

(** [fs.existsSync(p)] *)
Definition existsSync (fs : FileSystem) (p : string) : bool :=
  bool_decide (is_Some (read fs p)).

(** A name that [*] and [**] match: not empty, no leading dot. *)
Definition visible (segment : string) : bool :=
  match segment with
  | "" => false
  | String c _ => negb (Js.is_dot c)
  end.

(** [glob.sync(`${BASE_PATH}/**/*-metadata.json`)] *)
Definition is_metadata_path (p : string) : bool :=
  match Js.strip_prefix (BASE_PATH +:+ "/") p with
  | Some rest =>
      let segments := Js.split Js.is_slash rest in
      forallb visible segments && Js.endsWith (List.last segments "") "-metadata.json"
  | None => false
  end.

Definition metadata_files (fs : FileSystem) : list string :=
  List.filter is_metadata_path (fst <$> fs).

(** The directory [dir] exists: it is listed as one, or an entry lies below
    it. *)
Definition directory_exists (fs : FileSystem) (dir : string) : bool :=
  match read fs dir with
  | Some f => isDirectory f
  | None =>
      existsb (λ entry, bool_decide (is_Some (Js.strip_prefix (dir +:+ "/") (fst entry)))) fs
  end.

(** [fs.writeFileSync(p, ..)] returns when the directory of [p] exists and
    [p] is no directory itself, and throws otherwise; the script does not
    make the directory.  [true] stands for the return. *)
Definition writeFileSync (fs : FileSystem) (p : string) : bool :=
  directory_exists fs (Path.dirname p) && negb (directory_exists fs p).

(** [x || d] on an optional string: the empty string is falsy too. *)
Definition truthy (x : option string) : option string :=
  match x with
  | Some "" | None => None
  | Some s => Some s
  end.

(** The sidecar's own dimensions are kept when both numbers are truthy. *)
Definition usable (d : option Dimensions) : option Dimensions :=
  match d with
  | Some d => if negb (width d =? 0) && negb (height d =? 0) then Some d else None
  | None => None
  end.

(** [Object.prototype]'s properties: on a fresh object literal they are
    inherited and truthy, and none of them has a [push]. *)
Definition object_prototype_keys : list string :=
  ["constructor"; "__defineGetter__"; "__defineSetter__"; "hasOwnProperty";
   "__lookupGetter__"; "__lookupSetter__"; "isPrototypeOf";
   "propertyIsEnumerable"; "toString"; "valueOf"; "__proto__"; "toLocaleString"].

(** The callback of [images.reduce]: [None] when [push] is called on an
    inherited property, which throws. *)
Definition add_to_category (acc : gmap string (list string)) (img : ImageEntry)
  : option (gmap string (list string)) :=
  match acc !! category img with
  | Some ids => Some (<[category img := ids ++ [id img]]> acc)
  | None =>
      if decide (category img ∈ object_prototype_keys) then None
      else Some (<[category img := [id img]]> acc)
  end.

Definition group_by_category (images : list ImageEntry) : option (gmap string (list string)) :=
  foldl (λ acc img, acc ≫= λ acc, add_to_category acc img) (Some ∅) images.

Section Builder.

(** [Date_parse s] is the time value of [new Date(s)], [None] for an
    invalid date; [glob_sync fs pattern] is the array that
    [glob.sync(pattern)] returns on the file system [fs]; [clock k] is the
    time value that the [k]-th evaluation of [new Date()] of the run
    reads. *)
Variable Date_parse : string → option Z.
Variable glob_sync : FileSystem → string → list string.
Variable clock : nat → Z.

(** The state of the loop over [metadataFiles]. *)
Record Loop := {
  collected : list ImageEntry;
  errors : nat;
  clock_reads : nat;
  log : list Console
}.

(** The dimensions written into the entry, and the warning printed on the
    way. *)
Definition entry_dimensions (fs : FileSystem) (metadata : Metadata)
    (imageId : string) (originalFile : option string) (webpFile : string)
  : Dimensions * list Console :=
  match usable (md_dimensions metadata) with
  | Some d => (d, [])
  | None =>
      let imgFile := default webpFile originalFile in
      match read fs imgFile with
      | Some f =>
          match decoded f with
          | Some imgMeta => ({| width := width imgMeta; height := height imgMeta |}, [])
          | None => ({| width := 0; height := 0 |}, [Warn_could_not_extract_dimensions imageId])
          end
      | None => ({| width := 0; height := 0 |}, [Warn_image_file_not_found imageId])
      end
  end.

(** The body of the loop: [None] where the [catch] takes over. *)
Definition index_entry (fs : FileSystem) (reads : nat) (metaFile : string)
  : option (ImageEntry * nat * list Console) :=
  metadata ← read fs metaFile ≫= json;
  let imageId := Path.basename_without metaFile "-metadata.json" in
  let dir := Path.dirname metaFile in
  let originalFiles :=
    glob_sync fs (dir +:+ "/" +:+ imageId +:+ ".{jpg,jpeg,png,gif,webp}") in
  let originalFile :=
    match List.find (λ f, negb (Js.endsWith f ".webp")) originalFiles with
    | Some f => Some f
    | None => head originalFiles
    end in
  let webpFile := Path.join dir (imageId +:+ ".webp") in
  let '(dimensions, warnings) := entry_dimensions fs metadata imageId originalFile webpFile in
  let '(uploadDate, reads') :=
    match truthy (md_uploadDate metadata), truthy (md_uploadedAt metadata) with
    | Some d, _ => (d, reads)
    | None, Some d => (d, reads)
    | None, None => (Date.toISOString (clock reads), S reads)
    end in
  Some ({| id := imageId;
           filename := default imageId (truthy (md_filename metadata));
           name := default (default imageId (truthy (md_filename metadata)))
                           (truthy (md_name metadata));
           description := default "" (truthy (md_description metadata));
           path := Js.backslash_to_slash <$> originalFile;
           webpPath := if existsSync fs webpFile
                       then Some (Js.backslash_to_slash webpFile) else None;
           category := default "other" (truthy (md_category metadata));
           tags := default [] (md_tags metadata);
           dimensions := dimensions;
           filesize := match originalFile ≫= read fs with
                       | Some f => size f
                       | None => 0
                       end;
           uploadedBy := default "unknown" (truthy (md_uploadedBy metadata));
           uploadDate := uploadDate;
           format := default (match originalFile with
                              | Some f => Js.slice_1 (Path.extname f)
                              | None => "unknown"
                              end)
                             (truthy (md_format metadata)) |},
        reads', warnings).

Definition loop_step (fs : FileSystem) (st : Loop) (metaFile : string) : Loop :=
  match index_entry fs (clock_reads st) metaFile with
  | Some (entry, reads, warnings) =>
      {| collected := collected st ++ [entry];
         errors := errors st;
         clock_reads := reads;
         log := log st ++ warnings |}
  | None =>
      {| collected := collected st;
         errors := S (errors st);
         clock_reads := clock_reads st;
         log := log st ++ [Error_processing metaFile] |}
  end.

Definition run_loop (fs : FileSystem) (metadataFiles : list string) : Loop :=
  foldl (loop_step fs)
        {| collected := []; errors := 0; clock_reads := 0; log := [] |}
        metadataFiles.

(** The comparator [(a, b) => new Date(b.uploadDate) - new Date(a.uploadDate)];
    [None] is [NaN]. *)
Definition by_upload_date (a b : ImageEntry) : option Z :=
  tb ← Date_parse (uploadDate b);
  ta ← Date_parse (uploadDate a);
  Some (tb - ta).

(** [images.sort(comparefn)].  The sort of an array is stable, and a
    comparator value of [NaN] counts as [0].  Under a comparator that orders
    the elements consistently every stable sort returns the same array,
    which is what is proved about it below; insertion from the right is the
    one written here.  With an invalid date among the entries the comparator
    is not consistent, and the array an engine returns depends on its
    algorithm; the two agree on the three entries of [invalid_date] below. *)
Fixpoint insert (comparefn : ImageEntry → ImageEntry → option Z)
    (x : ImageEntry) (l : list ImageEntry) : list ImageEntry :=
  match l with
  | [] => [x]
  | y :: l' =>
      if 0 <? default 0 (comparefn x y) then y :: insert comparefn x l'
      else x :: l
  end.

Fixpoint sort (comparefn : ImageEntry → ImageEntry → option Z)
    (l : list ImageEntry) : list ImageEntry :=
  match l with
  | [] => []
  | x :: l' => insert comparefn x (sort comparefn l')
  end.

(** [generateIndex()], with the handler of its rejection: what is thrown
    outside the loop, by the reduction or by [writeFileSync], ends the run
    with exit code 1. *)
Definition generateIndex (fs : FileSystem) : Outcome :=
  let metadataFiles := metadata_files fs in
  if decide (length metadataFiles = 0%nat) then
    let emptyIndex :=
      {| version := "1.0";
         totalImages := 0;
         generatedDate := Date.toISOString (clock 0);
         images := [];
         byCategory := ∅ |} in
    if writeFileSync fs OUTPUT_PATH then
      {| exit_code := 0; written := [(OUTPUT_PATH, emptyIndex)]; console := [] |}
    else
      {| exit_code := 1; written := []; console := [Error_fatal] |}
  else
    let st := run_loop fs metadataFiles in
    let images := sort by_upload_date (collected st) in
    match group_by_category images with
    | Some byCategory =>
        let index :=
          {| version := "1.0";
             totalImages := Z.of_nat (length images);
             generatedDate := Date.toISOString (clock (clock_reads st));
             images := images;
             byCategory := byCategory |} in
        if writeFileSync fs OUTPUT_PATH then
          {| exit_code := 0; written := [(OUTPUT_PATH, index)]; console := log st |}
        else
          {| exit_code := 1; written := []; console := log st ++ [Error_fatal] |}
    | None =>
        {| exit_code := 1; written := []; console := log st ++ [Error_fatal] |}
    end.

End Builder.

End UserContent.

(** ** The vocabulary of the specification *)

Module Spec.

(** [post] is empty or begins with a separator; [pre] ends with one. *)
Definition opens_with_sep (sep : ascii → bool) (post : string) : Prop :=
  post = "" ∨ ∃ c post', post = String c post' ∧ sep c = true.

Definition closes_with_sep (sep : ascii → bool) (pre : string) : Prop :=
  ∃ pre' c, pre = pre' +:+ String c "" ∧ sep c = true.

(** [k] lies in [s] between two separators, or between a separator and an
    end of [s], and holds no separator itself. *)
Definition delimited (sep : ascii → bool) (s k : string) : Prop :=
  Js.str_all (λ c, negb (sep c)) k = true ∧
  ∃ pre post, s = pre +:+ k +:+ post ∧
    (pre = "" ∨ closes_with_sep sep pre) ∧ opens_with_sep sep post.









(** *** Game-asset index *)




(** The file [f] of name [name] lies at the relative path [rel] below a
    directory of listing [entries], every directory on the way being one
    that can be read. *)
Inductive lies_at : list GameAsset.Dirent → string → string → GameAsset.File → Prop :=
  | lies_here entries name f :
      GameAsset.DFile name f ∈ entries → lies_at entries name name f
  | lies_below entries d sub rel name f :
      GameAsset.DDir d (Some sub) ∈ entries →
      lies_at sub rel name f →
      lies_at entries (d +:+ "/" +:+ rel) name f.

(** *** User-content index *)

Import UserContent.


(** The id the builder gives the entry of a sidecar. *)
Definition image_id (metaFile : string) : string :=
  Path.basename_without metaFile "-metadata.json".

(** The parsed content of a sidecar. *)
Definition sidecar (fs : FileSystem) (metaFile : string) : option Metadata :=
  read fs metaFile ≫= json.

Definition occurrences (i : string) (ids : list string) : nat :=
  length (filter (λ j, j = i) ids).

(** Every entry's id stands exactly once in the bucket of its category,
    every id of a bucket belongs to exactly one entry, every entry's category
    is a key. *)
Definition byCategory_consistent (d : ImageIndex) : Prop :=
  (∀ e, e ∈ images d →
     ∃ ids, byCategory d !! category e = Some ids ∧ occurrences (id e) ids = 1%nat) ∧
  (∀ c ids i, byCategory d !! c = Some ids → i ∈ ids →
     length (filter (λ e, id e = i) (images d)) = 1%nat) ∧
  (∀ e, e ∈ images d → is_Some (byCategory d !! category e)).

Section Dates.
Variable Date_parse : string → option Z.

Definition upload_time (e : ImageEntry) : option Z := Date_parse (uploadDate e).

(** [a.uploadDate >= b.uploadDate] on the dates: a comparison with an
    invalid date is false. *)
Definition not_older (a b : ImageEntry) : Prop :=
  ∃ ta tb, upload_time a = Some ta ∧ upload_time b = Some tb ∧ tb ≤ ta.

Definition newest_first (l : list ImageEntry) : Prop :=
  ∀ i a b, l !! i = Some a → l !! S i = Some b → not_older a b.

(** Entries of one and the same upload time stand in [output] in the order
    they have in [input]. *)
Definition ties_keep_order (input output : list ImageEntry) : Prop :=
  ∀ t, filter (λ e, upload_time e = Some t) output =
       filter (λ e, upload_time e = Some t) input.

End Dates.

(** The sidecar carries an upload date the builder takes. *)
Definition dated (md : Metadata) : Prop :=
  is_Some (truthy (md_uploadDate md)) ∨ is_Some (truthy (md_uploadedAt md)).

Global Instance dated_dec md : Decision (dated md).
Proof. unfold dated. apply _. Defined.

(** The sidecars for which the builder reads the clock: those that parse
    and carry no date, in the order of the loop. *)
Definition needs_clock (fs : FileSystem) (metaFile : string) : bool :=
  match sidecar fs metaFile with
  | Some md => bool_decide (¬ dated md)
  | None => false
  end.

Definition undated_sidecars (fs : FileSystem) : list string :=
  List.filter (needs_clock fs) (metadata_files fs).

(** The pattern that the builder hands to glob for a sidecar, and the path
    at which it looks for the sidecar's webp file. *)
Definition image_pattern (metaFile : string) : string :=
  Path.dirname metaFile +:+ "/" +:+ image_id metaFile +:+ ".{jpg,jpeg,png,gif,webp}".

Definition webp_file (metaFile : string) : string :=
  Path.join (Path.dirname metaFile) (image_id metaFile +:+ ".webp").

(** The position that the entry of the [i]-th sidecar has in the list the
    loop collects, and the number of clock readings that precede its own:
    the sidecars before it that parse, and those among them without a
    date. *)
Definition parsed_before (fs : FileSystem) (i : nat) : nat :=
  length (filter (λ m, is_Some (sidecar fs m)) (take i (metadata_files fs))).

Definition readings_before (fs : FileSystem) (i : nat) : nat :=
  length (List.filter (needs_clock fs) (take i (metadata_files fs))).

(** [e] is the entry that the loop builds from the [i]-th sidecar. *)
Definition built_from (glob_sync : FileSystem → string → list string) (clock : nat → Z)
    (fs : FileSystem) (i : nat) (e : ImageEntry) : Prop :=
  collected (run_loop glob_sync clock fs (metadata_files fs)) !! parsed_before fs i = Some e.

(** The entry of a sidecar without any image file, as the specification
    gives it. *)
Definition entry_without_file (e : ImageEntry) : Prop :=
  filesize e = 0 ∧ path e = None ∧ dimensions e = {| width := 0; height := 0 |}.

(** Modelled from the spec: the code of the purge workflow is not among the
    sources, only its description [.github/workflows/README-PURGE.md], which
    says the same.  It reads the upload timestamp of a sidecar from
    [uploadedAt] or [uploadDate]; a sidecar lacking both is skipped and
    reported, never deleted. *)
Definition purge_timestamp (md : Metadata) : option string :=
  match md_uploadedAt md with
  | Some t => Some t
  | None => md_uploadDate md
  end.

(** Modelled from the spec: the purge workflow classifies a sidecar into
    delete or keep only when it has such a timestamp. *)
Definition purge_eligible (md : Metadata) : bool :=
  bool_decide (is_Some (purge_timestamp md)).

End Spec.

(** ** Scenarios *)

Module Scenario.

(** *** Game assets *)

Definition CDN_DIR : string := "/cdn/game-assets/images".

Definition png (bytes w h : Z) : GameAsset.File :=
  {| GameAsset.stat := Some {| GameAsset.size := bytes; GameAsset.mtime := 1735689600000 |};
     GameAsset.decoded := Some {| GameAsset.width := w; GameAsset.height := h |} |}.

Definition text (bytes : Z) : GameAsset.File :=
  {| GameAsset.stat := Some {| GameAsset.size := bytes; GameAsset.mtime := 1735689600000 |};
     GameAsset.decoded := None |}.

(** [icons/fire.png], 64 by 64. *)
Definition icons_fire : GameAsset.ScanRoot :=
  GameAsset.Present (Some [GameAsset.DDir "icons" (Some [GameAsset.DFile "fire.png" (png 2048 64 64)])]).

(** [fire.png] in the scan root itself. *)
Definition root_level_fire : GameAsset.ScanRoot :=
  GameAsset.Present (Some [GameAsset.DFile "fire.png" (png 2048 64 64)]).


(** A scan root without any image: a text file, an empty directory, a
    directory that cannot be read. *)
Definition no_images : GameAsset.ScanRoot :=
  GameAsset.Present (Some [GameAsset.DFile "README.txt" (text 10);
                           GameAsset.DDir "empty" (Some []);
                           GameAsset.DDir "locked" None]).

(** A file whose [stat] fails, next to [icons/fire.png]. *)
Definition vanished : GameAsset.File :=
  {| GameAsset.stat := None; GameAsset.decoded := None |}.

Definition one_vanished : list GameAsset.Dirent :=
  [GameAsset.DFile "gone.png" vanished;
   GameAsset.DDir "icons" (Some [GameAsset.DFile "fire.png" (png 2048 64 64)])].

Definition game_run (root : GameAsset.ScanRoot) : GameAsset.Outcome :=
  GameAsset.buildImageIndexes CDN_DIR CDN_DIR 1767225600000 root.

(** The document of a run that wrote one. *)
Definition game_index (root : GameAsset.ScanRoot) : GameAsset.ImageIndex :=
  default {| GameAsset.version := ""; GameAsset.base_path := "";
             GameAsset.totalImages := 0; GameAsset.generatedAt := "";
             GameAsset.images := [] |}
          (snd <$> head (GameAsset.written (game_run root))).

Definition spirit_entry : GameAsset.ImageEntry :=
  {| GameAsset.path := "/spirits/Spirit_001.png";
     GameAsset.filename := "Spirit_001.png";
     GameAsset.category := "spirits";
     GameAsset.filesize := 4096;
     GameAsset.keywords := ["Spirit_001"; "spirits"; "001"; "spirit"];
     GameAsset.lastModified := "2025-01-01T00:00:00.000Z";
     GameAsset.dimensions := Some {| GameAsset.width := 128; GameAsset.height := 128 |} |}.

(** *** User content *)

Import UserContent.

(** A clock that starts at [start] and is a second further at every
    reading. *)
Definition ticking (start : Z) : nat → Z := λ k, start + 1000 * Z.of_nat k.

Definition meta (category uploadDate : option string) (dims : option Dimensions)
  : Metadata :=
  {| md_filename := None; md_name := None; md_description := None;
     md_category := category; md_tags := None; md_dimensions := dims;
     md_uploadedBy := None; md_uploadDate := uploadDate; md_uploadedAt := None;
     md_format := None |}.

Definition sidecar_file (md : Metadata) : File :=
  {| size := 256; json := Some md; decoded := None; isDirectory := false |}.

Definition image_file (bytes w h : Z) : File :=
  {| size := bytes; json := None; decoded := Some {| width := w; height := h |};
     isDirectory := false |}.

Definition directory : File :=
  {| size := 4096; json := None; decoded := None; isDirectory := true |}.

Definition plain_file (bytes : Z) : File :=
  {| size := bytes; json := None; decoded := None; isDirectory := false |}.

(** A [glob.sync] for the patterns of the builder where the path of the
    sidecar holds no special character: the alternatives of the braces that
    exist.  They stand in the order of the braces; in the file systems
    below at most one file of an id is not a [.webp] file, and that file
    comes first in the alphabet as well. *)
Definition expand_braces (pattern : string) : list string :=
  match Js.split (Ascii.eqb "{") pattern with
  | [stem; alternatives] =>
      (λ a, stem +:+ a) <$>
        Js.split (Ascii.eqb ",") (default alternatives (Path.cut_suffix alternatives "}"))
  | _ => [pattern]
  end.

Definition glob_literal (fs : FileSystem) (pattern : string) : list string :=
  List.filter (existsSync fs) (expand_braces pattern).

(** Two uploads of different months whose sidecars have the same base
    name. *)
Definition same_basename : FileSystem :=
  [("user-content/images/cats/2025/05/abc123-metadata.json",
    sidecar_file (meta (Some "cats") (Some "2025-05-15T10:30:00.000Z") None));
   ("user-content/images/cats/2025/05/abc123.jpg", image_file 5000 800 600);
   ("user-content/images/cats/2025/06/abc123-metadata.json",
    sidecar_file (meta (Some "cats") (Some "2025-06-01T08:00:00.000Z") None));
   ("user-content/images/cats/2025/06/abc123.png", image_file 7000 640 480)].

(** Four uploads with valid dates, two of them of the same instant. *)
Definition gallery : FileSystem :=
  [("user-content/images/cats/tom-metadata.json",
    sidecar_file (meta (Some "cats") (Some "2025-05-15T10:30:00.000Z") None));
   ("user-content/images/cats/tom.jpg", image_file 5000 800 600);
   ("user-content/images/cats/tom.webp", image_file 3000 800 600);
   ("user-content/images/dogs/rex-metadata.json",
    sidecar_file (meta (Some "dogs") (Some "2025-06-01") None));
   ("user-content/images/dogs/rex.png", image_file 7000 640 480);
   ("user-content/images/dogs/ace-metadata.json",
    sidecar_file (meta (Some "dogs") (Some "2025-06-01T00:00:00.000Z") None));
   ("user-content/images/cats/kit-metadata.json",
    sidecar_file (meta (Some "cats") (Some "2025-07-04") None));
   ("user-content/images/cats/kit.webp", image_file 900 32 32)].

(** An upload whose date does not parse, between two that do. *)
Definition invalid_date : FileSystem :=
  [("user-content/images/a/old-metadata.json",
    sidecar_file (meta None (Some "2024-01-01") None));
   ("user-content/images/a/odd-metadata.json",
    sidecar_file (meta None (Some "not a date") None));
   ("user-content/images/a/new-metadata.json",
    sidecar_file (meta None (Some "2025-01-01") None))].

(** An upload whose sidecar has neither [uploadDate] nor [uploadedAt]. *)
Definition undated : FileSystem :=
  [("user-content/images/other/abc123-metadata.json", sidecar_file (meta None None None));
   ("user-content/images/other/abc123.jpg", image_file 5000 800 600)].

(** The sidecar [abc123-metadata.json] with [uploadDate: "2025-01-01"] and
    no image file next to it; once as it is, once with dimensions of its
    own. *)
Definition orphan : FileSystem :=
  [("user-content/images/other/abc123-metadata.json",
    sidecar_file (meta None (Some "2025-01-01") None))].

Definition orphan_with_dimensions : FileSystem :=
  [("user-content/images/other/abc123-metadata.json",
    sidecar_file (meta None (Some "2025-01-01") (Some {| width := 800; height := 600 |})))].

Definition orphan_entry (dims : Dimensions) : ImageEntry :=
  {| id := "abc123"; filename := "abc123"; name := "abc123"; description := "";
     path := None; webpPath := None; category := "other"; tags := [];
     dimensions := dims; filesize := 0; uploadedBy := "unknown";
     uploadDate := "2025-01-01"; format := "unknown" |}.

(** Two sidecars that do not parse around one that does and has no
    date. *)
Definition mostly_broken : FileSystem :=
  [("user-content/images/a/bad-metadata.json", image_file 10 0 0);
   ("user-content/images/a/good-metadata.json", sidecar_file (meta None None None));
   ("user-content/images/a/good.webp", image_file 900 32 32);
   ("user-content/images/b/worse-metadata.json", image_file 10 0 0)].

(** A sidecar whose category is the name of a property of
    [Object.prototype]. *)
Definition poisoned : FileSystem :=
  [("user-content/images/a/tom-metadata.json",
    sidecar_file (meta (Some "cats") (Some "2025-05-15T10:30:00.000Z") None));
   ("user-content/images/a/odd-metadata.json",
    sidecar_file (meta (Some "constructor") (Some "2025-05-16") None))].

(** Two sidecars without a date after one with a date and one that does
    not parse. *)
Definition two_undated : FileSystem :=
  [("user-content/images/a/old-metadata.json",
    sidecar_file (meta None (Some "2024-01-01") None));
   ("user-content/images/a/bad-metadata.json", image_file 10 0 0);
   ("user-content/images/a/one-metadata.json", sidecar_file (meta None None None));
   ("user-content/images/b/two-metadata.json", sidecar_file (meta None None None))].

(** The directory of the uploads without anything in it, and a working
    directory that does not have it. *)
Definition empty_directory : FileSystem := [("user-content/images", directory)].

Definition no_directory : FileSystem := [("README.md", plain_file 10)].

(** A sidecar whose id glob reads as a pattern: [img[1]] matches [img1],
    so glob returns [img1.jpg] and passes over [img[1].webp]. *)
Definition bracket_id : FileSystem :=
  [("user-content/images/a/img[1]-metadata.json",
    sidecar_file (meta None (Some "2025-01-01") None));
   ("user-content/images/a/img1.jpg", image_file 5000 800 600);
   ("user-content/images/a/img[1].webp", image_file 900 32 32)].

Definition glob_bracket_id (fs : FileSystem) (pattern : string) : list string :=
  if String.eqb pattern "user-content/images/a/img[1].{jpg,jpeg,png,gif,webp}"
  then List.filter (existsSync fs) ["user-content/images/a/img1.jpg"]
  else glob_literal fs pattern.

Definition user_run (start : Z) (fs : FileSystem) : Outcome :=
  generateIndex Date.iso_parse glob_literal (ticking start) fs.

(** The document of a run that wrote one. *)
Definition user_index (start : Z) (fs : FileSystem) : ImageIndex :=
  default {| version := ""; totalImages := 0; generatedDate := "";
             images := []; byCategory := ∅ |}
          (snd <$> head (written (user_run start fs))).

End Scenario.

(** ** Facts about the string primitives *)

Module JsFacts.
Import Js Spec.

Lemma app_nil_l (s : string) : "" +:+ s = s.
Proof. reflexivity. Qed.

Lemma app_cons c (s t : string) : String c s +:+ t = String c (s +:+ t).
Proof. reflexivity. Qed.

Lemma app_nil_r (s : string) : s +:+ "" = s.
Proof. induction s as [|c s IH]; [done|]. by rewrite app_cons, IH. Qed.

Lemma app_assoc (s t u : string) : (s +:+ t) +:+ u = s +:+ t +:+ u.
Proof. induction s as [|c s IH]; [done|]. by rewrite !app_cons, IH. Qed.

Lemma app_length (s t : string) :
  String.length (s +:+ t) = (String.length s + String.length t)%nat.
Proof. induction s as [|c s IH]; [done|]. rewrite app_cons. cbn. by rewrite IH. Qed.

Lemma str_all_app p s t : str_all p (s +:+ t) = str_all p s && str_all p t.
Proof.
  induction s as [|c s IH]; [done|]. rewrite app_cons. cbn.
  rewrite IH. by rewrite andb_assoc.
Qed.

Section Split.
Variable sep : ascii → bool.

Local Abbreviation free := (str_all (λ c, negb (sep c))).
Local Abbreviation opens_with_sep := (Spec.opens_with_sep sep).
Local Abbreviation closes_with_sep := (Spec.closes_with_sep sep).

Lemma split_not_nil s : split sep s ≠ [].
Proof.
  destruct s as [|c s]; [done|]. cbn.
  destruct (sep c); [done|]. by destruct (split sep s).
Qed.

Lemma split_cons_sep c s :
  sep c = true → split sep (String c s) = "" :: split sep s.
Proof. intros Hc. cbn. by rewrite Hc. Qed.

Lemma split_cons_free c s :
  sep c = false →
  split sep (String c s) =
    String c (List.hd "" (split sep s)) :: List.tl (split sep s).
Proof.
  intros Hc. cbn. rewrite Hc.
  pose proof (split_not_nil s). by destruct (split sep s).
Qed.

Lemma split_opens_with_sep post :
  opens_with_sep post → List.hd "" (split sep post) = "".
Proof.
  intros [->|(c & post' & -> & Hc)]; [done|]. by rewrite split_cons_sep.
Qed.

(** A separator-free prefix that ends at a separator is the first piece. *)
Lemma split_free_prefix k post :
  free k = true → opens_with_sep post →
  split sep (k +:+ post) = k :: List.tl (split sep post).
Proof.
  intros Hk Hpost. induction k as [|c k IH].
  - rewrite app_nil_l. pose proof (split_opens_with_sep _ Hpost) as Hhd.
    pose proof (split_not_nil post).
    destruct (split sep post); [done|]. cbn in Hhd. by subst.
  - cbn in Hk. apply andb_prop in Hk as [Hc Hk].
    apply negb_true_iff in Hc.
    rewrite app_cons, split_cons_free by done. by rewrite IH.
Qed.

(** Behind a separator the piece is one of the later pieces. *)
Lemma split_after_sep pre k post :
  closes_with_sep pre → free k = true → opens_with_sep post →
  k ∈ List.tl (split sep (pre +:+ k +:+ post)).
Proof.
  intros (pre' & d & -> & Hd) Hk Hpost.
  rewrite app_assoc.
  induction pre' as [|c pre' IH].
  - rewrite app_nil_l, app_cons, app_nil_l, split_cons_sep by done. cbn.
    rewrite split_free_prefix by done. apply list_elem_of_here.
  - rewrite app_cons. destruct (sep c) eqn:Hc.
    + rewrite split_cons_sep by done. cbn.
      pose proof (split_not_nil (pre' +:+ String d "" +:+ k +:+ post)).
      destruct (split sep _) eqn:E; [done|]. cbn in IH. by apply list_elem_of_further.
    + by rewrite split_cons_free.
Qed.

Lemma split_complete s k : delimited sep s k → k ∈ split sep s.
Proof.
  intros (Hk & pre & post & -> & Hpre & Hpost).
  destruct Hpre as [->|Hpre].
  - rewrite app_nil_l, split_free_prefix by done. apply list_elem_of_here.
  - pose proof (split_after_sep _ _ _ Hpre Hk Hpost) as Hin.
    destruct (split sep _); [by apply elem_of_nil in Hin|].
    by apply list_elem_of_further.
Qed.

(** The shape of a split: the first piece is a separator-free prefix, every
    later piece stands behind a separator. *)
Lemma split_shape s :
  (free (List.hd "" (split sep s)) = true ∧
   ∃ post, s = List.hd "" (split sep s) +:+ post ∧ opens_with_sep post) ∧
  ∀ k, k ∈ List.tl (split sep s) →
    free k = true ∧
    ∃ pre post, s = pre +:+ k +:+ post ∧ closes_with_sep pre ∧ opens_with_sep post.
Proof.
  induction s as [|c s [[Hh (post & Hs & Hpost)] IHt]].
  - cbn. split; [split; [done|]|].
    + exists "". split; [done|by left].
    + intros k Hk. by apply elem_of_nil in Hk.
  - destruct (sep c) eqn:Hc.
    + rewrite split_cons_sep by done. cbn. split; [split; [done|]|].
      * exists (String c s). split; [done|]. right. by exists c, s.
      * intros k Hk.
        pose proof (split_not_nil s).
        destruct (split sep s) as [|h t] eqn:E; [done|]. cbn in *.
        apply elem_of_cons in Hk as [->|Hk].
        -- split; [done|]. exists (String c ""), post.
           split; [by rewrite app_cons, app_nil_l, <- Hs|].
           split; [|done]. by exists "", c.
        -- destruct (IHt k Hk) as (Hfree & pre & post' & Hs' & (pre' & d & -> & Hd) & Hpost').
           split; [done|]. exists (String c (pre' +:+ String d "")), post'.
           split; [by rewrite app_cons, <- Hs'|]. split; [|done].
           by exists (String c pre'), d.
    + rewrite split_cons_free by done. cbn. split; [split|].
      * by rewrite Hc, Hh.
      * exists post. split; [by rewrite app_cons, <- Hs|done].
      * intros k Hk.
        destruct (IHt k Hk) as (Hfree & pre & post' & Hs' & (pre' & d & -> & Hd) & Hpost').
        split; [done|]. exists (String c (pre' +:+ String d "")), post'.
        split; [by rewrite app_cons, <- Hs'|]. split; [|done].
        by exists (String c pre'), d.
Qed.

Lemma split_sound s k : k ∈ split sep s → delimited sep s k.
Proof.
  intros Hin. destruct (split_shape s) as [[Hh (post & Hs & Hpost)] Ht].
  pose proof (split_not_nil s).
  destruct (split sep s) as [|h t] eqn:E; [done|]. cbn in *.
  apply elem_of_cons in Hin as [->|Hin].
  - split; [done|]. exists "", post. split; [done|]. split; [by left|done].
  - destruct (Ht k Hin) as (Hfree & pre & post' & Hs' & Hpre & Hpost').
    split; [done|]. exists pre, post'. split; [done|]. split; [by right|done].
Qed.

(** The pieces of a split are the delimited substrings. *)
Lemma elem_of_split s k : k ∈ split sep s ↔ delimited sep s k.
Proof. split; [apply split_sound|apply split_complete]. Qed.

End Split.

(** *** Global matches of a character class *)

Section MatchAll.
Variable p : ascii → bool.

Local Abbreviation other := (λ c : ascii, negb (p c)).







End MatchAll.

(** *** The extension pattern *)

Local Abbreviation plain := (λ c : ascii, negb (is_slash c) && negb (is_dot c)).


Lemma is_dot_spec c : is_dot c = true ↔ c = "."%char.
Proof. unfold is_dot. apply Ascii.eqb_eq. Qed.








(** *** Lower case *)



Lemma toLowerCase_app s t : toLowerCase (s +:+ t) = toLowerCase s +:+ toLowerCase t.
Proof. induction s as [|c s IH]; [done|]. rewrite !app_cons. cbn. by rewrite IH, app_cons. Qed.




(** *** The insertion-ordered set *)







End JsFacts.

(** ** Facts about the game-asset builder *)

Module GameAssetFacts.
Import Js Spec JsFacts GameAsset.



(** The category of a file in a subdirectory is the name of the top
    directory it lies in. *)
Lemma category_of_subdirectory top rest :
  top ≠ "" → str_all (λ c, negb (is_path_sep c)) top = true →
  category_of (top +:+ "/" +:+ rest) = top.
Proof.
  intros Hne Hfree. unfold category_of.
  rewrite split_free_prefix; [by destruct top| done |].
  right. by exists "/"%char, rest.
Qed.

(** The category of a file that lies in the scan root itself is its own
    name. *)
Lemma category_of_root_level name :
  name ≠ "" → str_all (λ c, negb (is_path_sep c)) name = true →
  category_of name = name.
Proof.
  intros Hne Hfree. unfold category_of.
  rewrite <- (app_nil_r name) at 1.
  rewrite split_free_prefix; [by destruct name| done | by left].
Qed.

Lemma strip_prefix_app p s : strip_prefix p (p +:+ s) = Some s.
Proof.
  induction p as [|c p IH]; [by destruct s|].
  rewrite app_cons. cbn. by rewrite Ascii.eqb_refl.
Qed.

Lemma relative_join dir rest : Path.relative dir (Path.join dir rest) = rest.
Proof.
  unfold Path.relative, Path.join.
  by rewrite <- (app_assoc dir "/" rest), strip_prefix_app.
Qed.

(** The category of the entry of a file in the scan root itself, and of a
    file below a top directory. *)
Lemma image_entry_root_level CDN_DIR name f e :
  name ≠ "" → str_all (λ c, negb (is_path_sep c)) name = true →
  image_entry CDN_DIR (Path.join CDN_DIR name) f = Some e →
  category e = name.
Proof.
  intros Hne Hfree. unfold image_entry. destruct (stat f); cbn; [|done].
  intros [= <-]. cbn. rewrite relative_join. by apply category_of_root_level.
Qed.

Lemma image_entry_subdirectory CDN_DIR top rest f e :
  top ≠ "" → str_all (λ c, negb (is_path_sep c)) top = true →
  image_entry CDN_DIR (Path.join CDN_DIR (top +:+ "/" +:+ rest)) f = Some e →
  category e = top.
Proof.
  intros Hne Hfree. unfold image_entry. destruct (stat f); cbn; [|done].
  intros [= <-]. cbn. rewrite relative_join. by apply category_of_subdirectory.
Qed.

(** What a written document holds. *)
Lemma game_written_inv CDN_DIR OUTPUT_DIR now root p d :
  (p, d) ∈ written (buildImageIndexes CDN_DIR OUTPUT_DIR now root) →
  ∃ listing,
    root = Present listing ∧
    p = INDEX_PATH OUTPUT_DIR ∧
    totalImages d = Z.of_nat (length (images d)) ∧
    images d = omap (λ '(fullPath, f), image_entry CDN_DIR fullPath f)
                    (getImagesInDirectory CDN_DIR listing).
Proof.
  destruct root as [|listing]; cbn.
  - intros H. by apply elem_of_nil in H.
  - case_decide; cbn.
    + intros Hin. by apply elem_of_nil in Hin.
    + intros Hin%list_elem_of_singleton. simplify_eq. by exists listing.
Qed.



Lemma index_path_not_search_index OUTPUT_DIR :
  INDEX_PATH OUTPUT_DIR ≠ Path.join OUTPUT_DIR "image-search-index.json".
Proof.
  unfold INDEX_PATH, Path.join. intros H. by apply (inj _) in H.
Qed.

End GameAssetFacts.

(** ** Facts about the user-content builder *)

Module UserContentFacts.
Import Spec UserContent.

(** *** The sort *)

Section Sort.
Variable comparefn : ImageEntry → ImageEntry → option Z.

Lemma insert_perm x l : insert comparefn x l ≡ₚ x :: l.
Proof.
  induction l as [|y l IH]; cbn; [done|].
  destruct (0 <? default 0 (comparefn x y)); [|done].
  rewrite IH. apply Permutation_swap.
Qed.

Lemma sort_perm l : sort comparefn l ≡ₚ l.
Proof.
  induction l as [|x l IH]; cbn; [done|]. by rewrite insert_perm, IH.
Qed.

Lemma elem_of_sort l e : e ∈ sort comparefn l ↔ e ∈ l.
Proof. by rewrite sort_perm. Qed.

End Sort.

Section SortByDate.
Variable Date_parse : string → option Z.

Local Abbreviation time := (upload_time Date_parse).
Local Abbreviation by_date := (by_upload_date Date_parse).

(** The comparator puts [x] behind [y] exactly when both dates are valid and
    [y] is the newer. *)
Lemma behind_iff x y :
  (0 <? default 0 (by_date x y)) = true ↔
  ∃ tx ty, time x = Some tx ∧ time y = Some ty ∧ tx < ty.
Proof.
  unfold by_upload_date, upload_time.
  destruct (Date_parse (uploadDate y)) as [ty|],
           (Date_parse (uploadDate x)) as [tx|]; cbn.
  - rewrite Z.ltb_lt. split.
    + intros. exists tx, ty. repeat split; lia.
    + intros (? & ? & [= <-] & [= <-] & ?). lia.
  - split; [done|]. by intros (? & ? & ? & _).
  - split; [done|]. by intros (? & ? & _ & ? & _).
  - split; [done|]. by intros (? & ? & ? & _).
Qed.

Lemma not_behind x y :
  is_Some (time x) → is_Some (time y) →
  (0 <? default 0 (by_date x y)) = false → not_older Date_parse x y.
Proof.
  intros [tx Hx] [ty Hy] Hcmp. exists tx, ty. repeat split; [done..|].
  destruct (decide (ty ≤ tx)) as [|Hlt]; [done|].
  assert ((0 <? default 0 (by_date x y)) = true) as Ht; [|by rewrite Ht in Hcmp].
  apply behind_iff. exists tx, ty. repeat split; [done..|lia].
Qed.

Lemma insert_HdRel y x l :
  not_older Date_parse y x → HdRel (not_older Date_parse) y l →
  HdRel (not_older Date_parse) y (insert by_date x l).
Proof.
  intros Hyx Hyl. destruct l as [|z l]; cbn; [by constructor|].
  destruct (0 <? default 0 (by_date x z)); constructor; [|done].
  by inversion Hyl.
Qed.

Lemma insert_sorted x l :
  is_Some (time x) → Forall (λ e, is_Some (time e)) l →
  Sorted (not_older Date_parse) l →
  Sorted (not_older Date_parse) (insert by_date x l).
Proof.
  intros Hx Hl Hs. induction l as [|y l IH]; cbn.
  - by repeat constructor.
  - apply Forall_cons in Hl as [Hy Hl]. apply Sorted_inv in Hs as [Hs Hhd].
    destruct (0 <? default 0 (by_date x y)) eqn:Hcmp.
    + constructor; [by apply IH|]. apply insert_HdRel; [|done].
      apply behind_iff in Hcmp as (tx & ty & ? & ? & ?).
      exists ty, tx. repeat split; [done..|lia].
    + constructor; [by constructor|]. constructor. by apply not_behind.
Qed.

Lemma sort_sorted l :
  Forall (λ e, is_Some (time e)) l →
  Sorted (not_older Date_parse) (sort by_date l).
Proof.
  induction l as [|x l IH]; intros Hl; cbn; [constructor|].
  apply Forall_cons in Hl as [Hx Hl]. apply insert_sorted; [done| |by apply IH].
  by rewrite sort_perm.
Qed.

Lemma sorted_adjacent l :
  Sorted (not_older Date_parse) l → newest_first Date_parse l.
Proof.
  intros Hs. induction Hs as [|a l Hs IH Hhd]; intros i x y Hx Hy; [done|].
  destruct i as [|i]; cbn in *.
  - simplify_eq. destruct l as [|b l]; cbn in *; simplify_eq. by inversion Hhd.
  - by eapply IH.
Qed.

(** Insertion moves an entry only past entries of another upload time. *)
Lemma filter_insert t x l :
  filter (λ e, time e = Some t) (insert by_date x l) =
  filter (λ e, time e = Some t) (x :: l).
Proof.
  induction l as [|y l IH]; cbn [insert]; [done|].
  destruct (0 <? default 0 (by_date x y)) eqn:Hcmp; [|done].
  apply behind_iff in Hcmp as (tx & ty & Hx & Hy & Hlt).
  rewrite (filter_cons _ y), IH, !(filter_cons _ x), (filter_cons _ y).
  repeat case_decide; try done. simplify_eq. lia.
Qed.

Lemma sort_stable l : ties_keep_order Date_parse l (sort by_date l).
Proof.
  intros t. induction l as [|x l IH]; cbn [sort]; [done|].
  by rewrite filter_insert, !(filter_cons _ x), IH.
Qed.

(** Next to an entry with an invalid date no order holds, however the
    entries are arranged. *)
Lemma invalid_date_unordered l e :
  (2 ≤ length l)%nat → e ∈ l → time e = None → ¬ newest_first Date_parse l.
Proof.
  intros Hlen Hin He Hnf.
  apply list_elem_of_lookup in Hin as [i Hi].
  destruct i as [|i].
  - destruct l as [|a [|b l]]; cbn in *; try lia. simplify_eq.
    destruct (Hnf 0%nat e b) as (? & ? & ? & _); [done..|]. congruence.
  - destruct (l !! i) as [a|] eqn:Ha.
    + destruct (Hnf i a e) as (? & ? & _ & ? & _); [done..|]. congruence.
    + apply lookup_ge_None in Ha. apply lookup_lt_Some in Hi. lia.
Qed.

End SortByDate.

(** *** The category buckets *)

Lemma group_by_category_snoc l x :
  group_by_category (l ++ [x]) =
  group_by_category l ≫= λ acc, add_to_category acc x.
Proof. unfold group_by_category. by rewrite foldl_snoc. Qed.

(** A bucket holds the ids of the entries of its category, in the order of
    the list; a category without entries has no bucket. *)
Lemma group_by_category_lookup l bc :
  group_by_category l = Some bc →
  ∀ c, (∀ ids, bc !! c = Some ids →
          ids ≠ [] ∧ ids = id <$> filter (λ e, category e = c) l) ∧
       (bc !! c = None → filter (λ e, category e = c) l = []).
Proof.
  revert bc. induction l as [|x l IH] using rev_ind; intros bc Hbc c.
  - cbn in Hbc. simplify_eq. rewrite lookup_empty. by split.
  - rewrite group_by_category_snoc in Hbc.
    destruct (group_by_category l) as [acc|] eqn:Hacc; cbn in Hbc; [|done].
    specialize (IH acc eq_refl).
    rewrite filter_app, fmap_app, filter_cons, filter_nil.
    unfold add_to_category in Hbc.
    destruct (acc !! category x) as [ids0|] eqn:Hx.
    + simplify_eq. destruct (IH (category x)) as [IH1 _].
      destruct (IH1 _ Hx) as [Hne Hids].
      destruct (decide (category x = c)) as [<-|Hc].
      * rewrite lookup_insert_eq. split; [|done].
        intros ids [= <-]. split; [by destruct ids0|]. by rewrite Hids.
      * rewrite lookup_insert_ne by done. cbn. rewrite !app_nil_r. apply IH.
    + case_decide; simplify_eq. destruct (IH (category x)) as [_ IH2].
      specialize (IH2 Hx).
      destruct (decide (category x = c)) as [<-|Hc].
      * rewrite lookup_insert_eq. split; [|done].
        intros ids [= <-]. split; [done|]. by rewrite IH2.
      * rewrite lookup_insert_ne by done. cbn. rewrite !app_nil_r. apply IH.
Qed.

Lemma occurrences_bucket (l : list ImageEntry) i c :
  occurrences i (id <$> filter (λ e, category e = c) l) =
  length (filter (λ e, id e = i ∧ category e = c) l).
Proof.
  unfold occurrences. induction l as [|x l IH]; [done|].
  rewrite !(filter_cons _ x).
  destruct (decide (category x = c)) as [Hc|Hc].
  - rewrite fmap_cons, filter_cons.
    destruct (decide (id x = i)) as [Hi|Hi].
    + rewrite decide_True by done. cbn. by rewrite IH.
    + rewrite decide_False by tauto. done.
  - rewrite decide_False by tauto. done.
Qed.

Lemma filter_length_pos {A} (P : A → Prop) `{!∀ x, Decision (P x)} (l : list A) x :
  x ∈ l → P x → (0 < length (filter P l))%nat.
Proof.
  intros Hin HP.
  assert (x ∈ filter P l) as Hx by (by apply list_elem_of_filter).
  destruct (filter P l); [by apply elem_of_nil in Hx|cbn; lia].
Qed.

Lemma NoDup_occurrences (l : list string) i :
  NoDup l → i ∈ l → occurrences i l = 1%nat.
Proof.
  unfold occurrences. induction 1 as [|x l Hx Hl IH]; intros Hin.
  - by apply elem_of_nil in Hin.
  - rewrite filter_cons. destruct (decide (x = i)) as [->|Hne].
    + cbn. f_equal. apply length_zero_iff_nil.
      destruct (filter (λ j, j = i) l) as [|j k] eqn:E; [done|].
      assert (j ∈ filter (λ j, j = i) l) as Hj by (rewrite E; left).
      apply list_elem_of_filter in Hj as [-> ?]. done.
    + apply IH. apply elem_of_cons in Hin as [->|]; done.
Qed.

Lemma NoDup_ids_one_entry (l : list ImageEntry) i :
  NoDup (id <$> l) → i ∈ id <$> l → length (filter (λ e, id e = i) l) = 1%nat.
Proof.
  intros Hnd Hin. rewrite <- (NoDup_occurrences (id <$> l) i) by done.
  unfold occurrences. clear. induction l as [|x l IH]; [done|].
  rewrite fmap_cons, !filter_cons. case_decide; cbn; by rewrite IH.
Qed.

Lemma NoDup_bucket (l : list ImageEntry) c :
  NoDup (id <$> l) → NoDup (id <$> filter (λ e, category e = c) l).
Proof.
  intros Hnd. eapply sublist_NoDup; [done|].
  apply fmap_sublist, sublist_filter.
Qed.

(** *** The loop over the sidecars *)

Section Loop.
Variable glob_sync : FileSystem → string → list string.
Variable clock : nat → Z.
Variable fs : FileSystem.

Lemma run_loop_snoc files m :
  run_loop glob_sync clock fs (files ++ [m]) = loop_step glob_sync clock fs (run_loop glob_sync clock fs files) m.
Proof. unfold run_loop. by rewrite foldl_snoc. Qed.

(** The loop body yields an entry exactly for a sidecar that parses. *)
Lemma index_entry_None r m : sidecar fs m = None → index_entry glob_sync clock fs r m = None.
Proof. unfold sidecar, index_entry. by intros ->. Qed.

Lemma index_entry_Some r m md :
  sidecar fs m = Some md →
  ∃ e r' w, index_entry glob_sync clock fs r m = Some (e, r', w).
Proof.
  unfold sidecar, index_entry. intros ->. cbn.
  destruct (entry_dimensions _ _ _ _ _) as [dims warnings].
  destruct (truthy (md_uploadDate md)), (truthy (md_uploadedAt md)); eauto.
Qed.

Lemma truthy_not_empty x s : truthy x = Some s → s ≠ "".
Proof. destruct x as [[|c x]|]; cbn; intros [= <-]; done. Qed.

(** The fields of the entry that the claims are about. *)
Lemma index_entry_fields r m e r' w :
  index_entry glob_sync clock fs r m = Some (e, r', w) →
  ∃ md, sidecar fs m = Some md ∧
    id e = image_id m ∧
    category e = default "other" (truthy (md_category md)) ∧
    match truthy (md_uploadDate md), truthy (md_uploadedAt md) with
    | Some s, _ | None, Some s => uploadDate e = s ∧ s ≠ "" ∧ r' = r
    | None, None => uploadDate e = Date.toISOString (clock r) ∧ r' = S r
    end.
Proof.
  unfold sidecar, index_entry.
  destruct (read fs m ≫= json) as [md|]; cbn; [|done].
  destruct (entry_dimensions _ _ _ _ _) as [dims warnings].
  intros He. exists md. split; [done|].
  destruct (truthy (md_uploadDate md)) as [s1|] eqn:H1;
    destruct (truthy (md_uploadedAt md)) as [s2|] eqn:H2;
    simplify_eq; cbn; repeat split; eauto using truthy_not_empty.
Qed.

(** The files of the entry, read off what glob returns for the sidecar. *)
Lemma index_entry_files r m e r' w :
  index_entry glob_sync clock fs r m = Some (e, r', w) →
  let found := glob_sync fs (image_pattern m) in
  let primary := match List.find (λ f, negb (Js.endsWith f ".webp")) found with
                 | Some f => Some f
                 | None => head found
                 end in
  path e = Js.backslash_to_slash <$> primary ∧
  webpPath e = (if existsSync fs (webp_file m)
                then Some (Js.backslash_to_slash (webp_file m)) else None) ∧
  filesize e = match primary ≫= read fs with
               | Some f => size f
               | None => 0
               end ∧
  ∀ md, sidecar fs m = Some md →
    dimensions e = (entry_dimensions fs md (image_id m) primary (webp_file m)).1.
Proof.
  unfold sidecar, index_entry.
  destruct (read fs m ≫= json) as [md|]; cbn; [|done].
  change (glob_sync fs _) with (glob_sync fs (image_pattern m)).
  change (Path.join (Path.dirname m) _) with (webp_file m).
  change (Path.basename_without m "-metadata.json") with (image_id m).
  destruct (entry_dimensions _ _ _ _ _) as [dims warnings] eqn:Hdims.
  destruct (truthy (md_uploadDate md)), (truthy (md_uploadedAt md));
    intros [= <- <- <-]; cbn; (repeat split; [done..|]); intros ? [= <-];
    by rewrite Hdims.
Qed.

(** The entry of a sidecar for which glob finds no file and next to which
    no webp file lies. *)
Lemma index_entry_without_file r m md e r' w :
  index_entry glob_sync clock fs r m = Some (e, r', w) →
  sidecar fs m = Some md →
  glob_sync fs (image_pattern m) = [] →
  existsSync fs (webp_file m) = false →
  filesize e = 0 ∧ path e = None ∧ webpPath e = None ∧
  dimensions e = default {| width := 0; height := 0 |} (usable (md_dimensions md)).
Proof.
  intros He Hmd Hnone Hwebp.
  destruct (index_entry_files _ _ _ _ _ He) as (Hpath & Hwebpath & Hsize & Hdims).
  rewrite Hnone in Hpath, Hsize. rewrite Hwebp in Hwebpath.
  rewrite (Hdims md Hmd), Hnone. cbn in *.
  repeat split; [done..|].
  unfold entry_dimensions. destruct (usable (md_dimensions md)); [done|]. cbn.
  unfold existsSync in Hwebp. apply bool_decide_eq_false in Hwebp.
  destruct (read fs (webp_file m)); [|done]. exfalso. eauto.
Qed.

Lemma collected_sound files e :
  e ∈ collected (run_loop glob_sync clock fs files) →
  ∃ m r r' w, m ∈ files ∧ index_entry glob_sync clock fs r m = Some (e, r', w).
Proof.
  induction files as [|m files IH] using rev_ind.
  - intros H. by apply elem_of_nil in H.
  - rewrite run_loop_snoc. unfold loop_step.
    destruct (index_entry glob_sync clock fs _ m) as [[[e' r'] w]|] eqn:Hm; cbn.
    + intros [Hin| ->%list_elem_of_singleton]%elem_of_app.
      * destruct (IH Hin) as (m0 & r0 & r0' & w0 & ? & ?).
        exists m0, r0, r0', w0. split; [|done]. apply elem_of_app. by left.
      * exists m, (clock_reads (run_loop glob_sync clock fs files)), r', w.
        split; [|done]. apply elem_of_app. right. by apply list_elem_of_singleton.
    + intros Hin. destruct (IH Hin) as (m0 & r0 & r0' & w0 & ? & ?).
      exists m0, r0, r0', w0. split; [|done]. apply elem_of_app. by left.
Qed.

Lemma collected_complete files m md :
  m ∈ files → sidecar fs m = Some md →
  ∃ e r r' w, index_entry glob_sync clock fs r m = Some (e, r', w) ∧
              e ∈ collected (run_loop glob_sync clock fs files).
Proof.
  intros Hin Hmd. induction files as [|m0 files IH] using rev_ind.
  - by apply elem_of_nil in Hin.
  - rewrite run_loop_snoc. unfold loop_step.
    apply elem_of_app in Hin as [Hin| ->%list_elem_of_singleton].
    + destruct (IH Hin) as (e & r & r' & w & He & Hcol).
      exists e, r, r', w. split; [done|].
      destruct (index_entry glob_sync clock fs _ m0) as [[[??]?]|]; cbn; [|done].
      apply elem_of_app. by left.
    + destruct (index_entry_Some (clock_reads (run_loop glob_sync clock fs files)) m0 md Hmd)
        as (e & r' & w & He).
      exists e, (clock_reads (run_loop glob_sync clock fs files)), r', w. split; [done|].
      rewrite He. cbn. apply elem_of_app. right. by apply list_elem_of_singleton.
Qed.

(** The ids of the collected entries are the base names of the sidecars
    that parse, in the order of the sidecars. *)
Lemma collected_ids files :
  id <$> collected (run_loop glob_sync clock fs files) =
  image_id <$> filter (λ m, is_Some (sidecar fs m)) files.
Proof.
  induction files as [|m files IH] using rev_ind; [done|].
  rewrite run_loop_snoc, filter_app, fmap_app, <- IH. unfold loop_step.
  rewrite filter_cons, filter_nil.
  destruct (index_entry glob_sync clock fs _ m) as [[[e r'] w]|] eqn:Hm; cbn.
  - destruct (index_entry_fields _ _ _ _ _ Hm) as (md & Hmd & Hid & _).
    rewrite decide_True by (by rewrite Hmd). rewrite fmap_app. cbn. by rewrite Hid.
  - destruct (sidecar fs m) as [md|] eqn:Hmd.
    + destruct (index_entry_Some (clock_reads (run_loop glob_sync clock fs files)) m md Hmd)
        as (? & ? & ? & ?). congruence.
    + rewrite decide_False by (by intros [??]). by rewrite app_nil_r.
Qed.

(** The loop body reads the clock once for a sidecar without a date. *)
Lemma reads_after r m e r' w :
  index_entry glob_sync clock fs r m = Some (e, r', w) →
  r' = (r + length (List.filter (needs_clock fs) [m]))%nat.
Proof.
  intros He. destruct (index_entry_fields _ _ _ _ _ He) as (md & Hmd & _ & _ & Hdate).
  cbn [List.filter]. unfold needs_clock. rewrite Hmd.
  destruct (truthy (md_uploadDate md)) eqn:H1; [destruct Hdate as (_ & _ & ->)|].
  { rewrite bool_decide_eq_false_2
      by (intros H; apply H; unfold dated; rewrite H1; eauto).
    cbn. lia. }
  destruct (truthy (md_uploadedAt md)) eqn:H2;
    [destruct Hdate as (_ & _ & ->)|destruct Hdate as [_ ->]].
  - rewrite bool_decide_eq_false_2
      by (intros H; apply H; unfold dated; rewrite H2; eauto).
    cbn. lia.
  - rewrite bool_decide_eq_true_2
      by (unfold dated; rewrite H1, H2; intros [[??]|[??]]; done).
    cbn. lia.
Qed.

(** The entry of the [i]-th sidecar stands in the collected list behind the
    entries of the sidecars before it that parse, and the readings of the
    clock before its own are those for the undated sidecars among them. *)
Lemma run_loop_position files :
  length (collected (run_loop glob_sync clock fs files))
    = length (filter (λ m, is_Some (sidecar fs m)) files) ∧
  clock_reads (run_loop glob_sync clock fs files)
    = length (List.filter (needs_clock fs) files) ∧
  ∀ i m md, files !! i = Some m → sidecar fs m = Some md →
    ∃ e r' w,
      index_entry glob_sync clock fs
        (length (List.filter (needs_clock fs) (take i files))) m = Some (e, r', w) ∧
      collected (run_loop glob_sync clock fs files)
        !! length (filter (λ m, is_Some (sidecar fs m)) (take i files)) = Some e.
Proof.
  induction files as [|x files (IHlen & IHreads & IH)] using rev_ind.
  - split; [done|]. split; [done|]. intros i m md Hi. by rewrite lookup_nil in Hi.
  - rewrite run_loop_snoc, filter_app, List.filter_app, !length_app. unfold loop_step.
    rewrite filter_cons, filter_nil.
    destruct (index_entry glob_sync clock fs (clock_reads (run_loop glob_sync clock fs files)) x)
      as [[[e r'] w]|] eqn:He; cbn [collected clock_reads].
    + pose proof (reads_after _ _ _ _ _ He) as ->.
      destruct (index_entry_fields _ _ _ _ _ He) as (mdx & Hx & _).
      rewrite decide_True by (by rewrite Hx). rewrite length_app. cbn [length].
      split; [by rewrite IHlen|]. split; [by rewrite IHreads|].
      intros i m md Hi Hmd. apply lookup_app_Some in Hi as [Hi|[Hge Hi]].
      * rewrite take_app_le by (apply lookup_lt_Some in Hi; lia).
        destruct (IH i m md Hi Hmd) as (e' & r0 & w0 & He' & Hl).
        exists e', r0, w0. split; [done|]. by apply lookup_app_l_Some.
      * destruct (i - length files)%nat eqn:Hd; [|by destruct n].
        cbn in Hi. injection Hi as <-.
        assert (i = length files) as -> by lia. rewrite take_app_length.
        exists e, (clock_reads (run_loop glob_sync clock fs files)
                   + length (List.filter (needs_clock fs) [x]))%nat, w.
        rewrite <- IHreads. split; [done|]. by apply list_lookup_middle.
    + assert (sidecar fs x = None) as Hx.
      { destruct (sidecar fs x) as [mdx|] eqn:Hx; [|done].
        destruct (index_entry_Some (clock_reads (run_loop glob_sync clock fs files)) x mdx Hx)
          as (? & ? & ? & ?). congruence. }
      rewrite decide_False by (rewrite Hx; by intros [??]).
      cbn [List.filter]. unfold needs_clock at 2. rewrite Hx. cbn [length].
      split; [by rewrite IHlen, Nat.add_0_r|]. split; [by rewrite IHreads, Nat.add_0_r|].
      intros i m md Hi Hmd. apply lookup_app_Some in Hi as [Hi|[Hge Hi]].
      * rewrite take_app_le by (apply lookup_lt_Some in Hi; lia). by apply (IH i m md).
      * destruct (i - length files)%nat eqn:Hd; [|by destruct n].
        cbn in Hi. injection Hi as <-. congruence.
Qed.

End Loop.



(** *** The run *)

Lemma user_written_inv Date_parse glob_sync clock fs p d :
  (p, d) ∈ written (generateIndex Date_parse glob_sync clock fs) →
  p = OUTPUT_PATH ∧
  version d = "1.0" ∧
  totalImages d = Z.of_nat (length (images d)) ∧
  images d = sort (by_upload_date Date_parse)
                  (collected (run_loop glob_sync clock fs (metadata_files fs))) ∧
  group_by_category (images d) = Some (byCategory d).
Proof.
  unfold generateIndex. case_decide as Hlen.
  - destruct (writeFileSync fs OUTPUT_PATH); cbn;
      [|intros Hin; by apply elem_of_nil in Hin].
    intros Hin%list_elem_of_singleton. simplify_eq.
    apply length_zero_iff_nil in Hlen. rewrite Hlen. done.
  - destruct (group_by_category _) as [bc|] eqn:Hbc; cbn;
      [|intros Hin; by apply elem_of_nil in Hin].
    destruct (writeFileSync fs OUTPUT_PATH); cbn;
      [|intros Hin; by apply elem_of_nil in Hin].
    intros Hin%list_elem_of_singleton. by simplify_eq.
Qed.

(** The entry of the [i]-th sidecar in a written index. *)
Lemma written_entry Date_parse glob_sync clock fs p d i m md :
  (p, d) ∈ written (generateIndex Date_parse glob_sync clock fs) →
  metadata_files fs !! i = Some m →
  sidecar fs m = Some md →
  ∃ e r' w,
    index_entry glob_sync clock fs (readings_before fs i) m = Some (e, r', w) ∧
    built_from glob_sync clock fs i e ∧ e ∈ images d.
Proof.
  intros (_ & _ & _ & -> & _)%user_written_inv Hi Hmd.
  destruct (run_loop_position glob_sync clock fs (metadata_files fs)) as (_ & _ & Hpos).
  destruct (Hpos i m md Hi Hmd) as (e & r' & w & He & Hl).
  exists e, r', w. split; [done|]. split; [done|].
  apply elem_of_sort. by eapply list_elem_of_lookup_2.
Qed.

(** The ids of a written index are the base names of the sidecars that
    parse. *)
Lemma ids_of_images Date_parse glob_sync clock fs p d :
  (p, d) ∈ written (generateIndex Date_parse glob_sync clock fs) →
  id <$> images d ≡ₚ
  image_id <$> filter (λ m, is_Some (sidecar fs m)) (metadata_files fs).
Proof.
  intros (_ & _ & _ & -> & _)%user_written_inv.
  by rewrite sort_perm, collected_ids.
Qed.

Lemma ids_of_images_NoDup Date_parse glob_sync clock fs p d :
  (p, d) ∈ written (generateIndex Date_parse glob_sync clock fs) →
  NoDup (image_id <$> metadata_files fs) → NoDup (id <$> images d).
Proof.
  intros Hd Hnd. rewrite (ids_of_images _ _ _ _ _ _ Hd).
  eapply sublist_NoDup; [done|]. apply fmap_sublist, sublist_filter.
Qed.

Lemma toISOString_not_empty t : Date.toISOString t ≠ "".
Proof.
  unfold Date.toISOString. destruct (Date.civil_of_days _) as [[y m] d].
  match goal with |- ?year +:+ _ ≠ _ => by destruct year end.
Qed.

End UserContentFacts.

(** ** The claims *)

(** *** Game assets *)

Import Spec Scenario.

Local Ltac by_computation := apply (bool_decide_unpack _); vm_compute; exact I.




(** The examples of the comment above [extractCategory], which hold of the
    expression the loop uses as well. *)
Example extractCategory_examples :
  GameAsset.extractCategory "spirits/Spirit_001.png" = "spirits" ∧
  GameAsset.extractCategory "icons/fire.png" = "icons" ∧
  GameAsset.extractCategory "equipment/weapons/sword.png" = "equipment" ∧
  GameAsset.category_of "spirits/Spirit_001.png" = "spirits" ∧
  GameAsset.category_of "icons/fire.png" = "icons" ∧
  GameAsset.category_of "equipment/weapons/sword.png" = "equipment".
Proof. repeat split; vm_compute; reflexivity. Qed.

(** The scenario of the specification: one [icons/fire.png], 64 by 64. *)
Example icons_fire_index :
  GameAsset.images (game_index icons_fire) =
  [{| GameAsset.path := "/icons/fire.png";
      GameAsset.filename := "fire.png";
      GameAsset.category := "icons";
      GameAsset.filesize := 2048;
      GameAsset.keywords := ["fire"; "icons"];
      GameAsset.lastModified := "2025-01-01T00:00:00.000Z";
      GameAsset.dimensions := Some {| GameAsset.width := 64; GameAsset.height := 64 |} |}].
Proof. vm_compute. reflexivity. Qed.

(** C4 (the code at the failing input): a file that lies in the scan root
    itself gets its own name as category, not ["uncategorized"]. *)
Theorem root_level_file_category :
  GameAsset.category <$> GameAsset.images (game_index root_level_fire) = ["fire.png"] ∧
  (GameAsset.INDEX_PATH CDN_DIR, game_index root_level_fire)
    ∈ GameAsset.written (game_run root_level_fire).
Proof. split; [vm_compute; reflexivity|by_computation]. Qed.

(** C9 (the code on every run): the only file the script ever writes is
    [image-index.json]; no run writes [image-search-index.json]. *)
Theorem only_image_index_written CDN_DIR OUTPUT_DIR now root :
  Forall (λ pd, pd.1 = GameAsset.INDEX_PATH OUTPUT_DIR)
         (GameAsset.written (GameAsset.buildImageIndexes CDN_DIR OUTPUT_DIR now root)) ∧
  Path.join OUTPUT_DIR "image-search-index.json"
    ∉ (GameAsset.written (GameAsset.buildImageIndexes CDN_DIR OUTPUT_DIR now root)).*1.
Proof.
  assert (Forall (λ pd, pd.1 = GameAsset.INDEX_PATH OUTPUT_DIR)
            (GameAsset.written (GameAsset.buildImageIndexes CDN_DIR OUTPUT_DIR now root)))
    as Hall.
  { apply Forall_forall. intros [p d] Hin.
    by apply GameAssetFacts.game_written_inv in Hin as (? & _ & -> & _). }
  split; [done|]. intros Hin.
  apply list_elem_of_fmap in Hin as ([p d] & Hp & Hin).
  rewrite Forall_forall in Hall. specialize (Hall _ Hin). cbn in *. subst.
  by eapply GameAssetFacts.index_path_not_search_index.
Qed.

(** *** User content *)

Import UserContent.

(** C1 (counterexample): two sidecars [abc123-metadata.json] in the
    directories of two months give two entries with the id [abc123], and the
    bucket of their category holds that id twice. *)
Lemma same_basename_breaks_buckets :
  ¬ (∀ p d, (p, d) ∈ written (user_run 0 same_basename) → byCategory_consistent d).
Proof.
  intros H.
  destruct (H OUTPUT_PATH (user_index 0 same_basename)) as (_ & Hone & _);
    [by_computation|].
  specialize (Hone "cats" ["abc123"; "abc123"] "abc123").
  assert (length (filter (λ e, id e = "abc123") (images (user_index 0 same_basename)))
          = 1%nat) as Hlen.
  { apply Hone; [vm_compute; reflexivity|by_computation]. }
  vm_compute in Hlen. discriminate Hlen.
Qed.

(** C1 (amended): in every index the builder writes, the bucket of an
    entry's category exists and holds the entry's id as many times as the
    images list has entries of that id and category, at least once; every id
    of a bucket is the id of an entry of that category; and when the base
    names of the sidecars are pairwise distinct, every id stands exactly once
    in its bucket and belongs to exactly one entry. *)
Theorem byCategory_buckets Date_parse glob_sync clock fs p d :
  (p, d) ∈ written (generateIndex Date_parse glob_sync clock fs) →
  (∀ e, e ∈ images d →
     ∃ ids, byCategory d !! category e = Some ids ∧ id e ∈ ids ∧
       occurrences (id e) ids =
       length (filter (λ e', id e' = id e ∧ category e' = category e) (images d))) ∧
  (∀ c ids i, byCategory d !! c = Some ids → i ∈ ids →
     ∃ e, e ∈ images d ∧ id e = i ∧ category e = c) ∧
  (NoDup (image_id <$> metadata_files fs) → byCategory_consistent d).
Proof.
  intros Hd.
  pose proof (UserContentFacts.user_written_inv _ _ _ _ _ _ Hd) as (_ & _ & _ & _ & Hgroup).
  pose proof (UserContentFacts.group_by_category_lookup _ _ Hgroup) as Hbc.
  assert (∀ e, e ∈ images d →
            byCategory d !! category e =
            Some (id <$> filter (λ e', category e' = category e) (images d)) ∧
            id e ∈ id <$> filter (λ e', category e' = category e) (images d))
    as Hbucket.
  { intros e He.
    assert (e ∈ filter (λ e', category e' = category e) (images d)) as Hf
      by (by apply list_elem_of_filter).
    destruct (Hbc (category e)) as [Hsome Hnone].
    destruct (byCategory d !! category e) as [ids|] eqn:Hids.
    - destruct (Hsome ids eq_refl) as [_ ->]. split; [done|].
      by apply list_elem_of_fmap_2.
    - rewrite (Hnone eq_refl) in Hf. by apply elem_of_nil in Hf. }
  assert (∀ c ids i, byCategory d !! c = Some ids → i ∈ ids →
            ∃ e, e ∈ images d ∧ id e = i ∧ category e = c) as Hback.
  { intros c ids i Hids Hi. destruct (Hbc c) as [Hsome _].
    destruct (Hsome ids Hids) as [_ ->].
    apply list_elem_of_fmap in Hi as (e & -> & [? ?]%list_elem_of_filter). eauto. }
  split; [|split; [done|]].
  - intros e He. destruct (Hbucket e He) as [Hids Hin].
    eexists. split; [done|]. split; [done|]. apply UserContentFacts.occurrences_bucket.
  - intros Hnd. pose proof (UserContentFacts.ids_of_images_NoDup _ _ _ _ _ _ Hd Hnd) as Hnd'.
    split; [|split].
    + intros e He. destruct (Hbucket e He) as [Hids Hin].
      eexists. split; [done|].
      apply UserContentFacts.NoDup_occurrences; [|done].
      by apply UserContentFacts.NoDup_bucket.
    + intros c ids i Hids Hi. destruct (Hback c ids i Hids Hi) as (e & He & <- & _).
      apply UserContentFacts.NoDup_ids_one_entry; [done|].
      by apply list_elem_of_fmap_2.
    + intros e He. destruct (Hbucket e He) as [-> _]. done.
Qed.

(** The gallery: four sidecars of four base names. *)
Lemma byCategory_buckets_witness :
  (OUTPUT_PATH, user_index 0 gallery) ∈ written (user_run 0 gallery) ∧
  NoDup (image_id <$> metadata_files gallery) ∧
  byCategory_consistent (user_index 0 gallery).
Proof.
  assert ((OUTPUT_PATH, user_index 0 gallery) ∈ written (user_run 0 gallery))
    as Hd by by_computation.
  assert (NoDup (image_id <$> metadata_files gallery)) as Hnd by by_computation.
  split; [exact Hd|]. split; [exact Hnd|].
  exact (proj2 (proj2 (byCategory_buckets Date.iso_parse glob_literal (ticking 0) gallery _ _ Hd)) Hnd).
Defined.

(** C2 (counterexample): an upload date that does not parse makes the
    comparator return [NaN] against every other entry; the entry stays where
    it was and the entry of 2024 ends up before the one of 2025. *)
Lemma invalid_date_breaks_order :
  ¬ (∀ p d, (p, d) ∈ written (user_run 0 invalid_date) →
       newest_first Date.iso_parse (images d) ∧
       ties_keep_order Date.iso_parse
         (collected (run_loop glob_literal (ticking 0) invalid_date (metadata_files invalid_date)))
         (images d)).
Proof.
  intros H.
  destruct (H OUTPUT_PATH (user_index 0 invalid_date)) as [Hnf _]; [by_computation|].
  destruct (images (user_index 0 invalid_date) !! 1%nat) as [odd|] eqn:Hodd;
    [|vm_compute in Hodd; discriminate Hodd].
  apply (UserContentFacts.invalid_date_unordered Date.iso_parse _ odd) in Hnf; [done| | |].
  - vm_compute. lia.
  - by eapply list_elem_of_lookup_2.
  - vm_compute in Hodd. injection Hodd as <-. vm_compute. reflexivity.
Qed.

Example invalid_date_order :
  (λ e, (id e, uploadDate e)) <$> images (user_index 0 invalid_date) =
  [("old", "2024-01-01"); ("odd", "not a date"); ("new", "2025-01-01")].
Proof. vm_compute. reflexivity. Qed.

(** C2 (amended): when the upload date of every entry parses as a valid
    date, the images list is sorted by upload time, newest first, and the
    entries of one and the same upload time keep the order in which the loop
    collected them. *)
Theorem sorted_newest_first Date_parse glob_sync clock fs p d :
  (p, d) ∈ written (generateIndex Date_parse glob_sync clock fs) →
  Forall (λ e, is_Some (upload_time Date_parse e)) (images d) →
  newest_first Date_parse (images d) ∧
  ties_keep_order Date_parse
    (collected (run_loop glob_sync clock fs (metadata_files fs))) (images d).
Proof.
  intros (_ & _ & _ & -> & _)%UserContentFacts.user_written_inv Hvalid.
  rewrite UserContentFacts.sort_perm in Hvalid. split.
  - by apply UserContentFacts.sorted_adjacent, UserContentFacts.sort_sorted.
  - apply UserContentFacts.sort_stable.
Qed.

(** The gallery: four valid dates, two of them equal. *)
Lemma sorted_newest_first_witness :
  (OUTPUT_PATH, user_index 0 gallery) ∈ written (user_run 0 gallery) ∧
  Forall (λ e, is_Some (upload_time Date.iso_parse e)) (images (user_index 0 gallery)) ∧
  newest_first Date.iso_parse (images (user_index 0 gallery)) ∧
  ties_keep_order Date.iso_parse
    (collected (run_loop glob_literal (ticking 0) gallery (metadata_files gallery)))
    (images (user_index 0 gallery)).
Proof.
  assert ((OUTPUT_PATH, user_index 0 gallery) ∈ written (user_run 0 gallery))
    as Hd by by_computation.
  assert (Forall (λ e, is_Some (upload_time Date.iso_parse e))
            (images (user_index 0 gallery))) as Hvalid by by_computation.
  split; [exact Hd|]. split; [exact Hvalid|].
  exact (sorted_newest_first Date.iso_parse glob_literal (ticking 0) gallery _ _ Hd Hvalid).
Defined.

(** C8 (counterexample): the sidecar [abc123-metadata.json] that carries
    dimensions of its own, 800 by 600, and has no image file next to it gets
    an entry with these dimensions, not with zeros. *)
Lemma sidecar_dimensions_kept :
  ¬ (∀ p d m md,
       (p, d) ∈ written (user_run 0 orphan_with_dimensions) →
       m ∈ metadata_files orphan_with_dimensions →
       sidecar orphan_with_dimensions m = Some md →
       glob_literal orphan_with_dimensions (image_pattern m) = [] →
       existsSync orphan_with_dimensions (webp_file m) = false →
       ∃ e, e ∈ images d ∧ id e = image_id m ∧ entry_without_file e).
Proof.
  intros H.
  destruct (H OUTPUT_PATH (user_index 0 orphan_with_dimensions)
              "user-content/images/other/abc123-metadata.json"
              (meta None (Some "2025-01-01") (Some {| width := 800; height := 600 |})))
    as (e & He & _ & _ & _ & Hdims);
    [by_computation|by_computation|vm_compute; reflexivity..|].
  assert (images (user_index 0 orphan_with_dimensions)
          = [orphan_entry {| width := 800; height := 600 |}]) as Himages
    by (vm_compute; reflexivity).
  rewrite Himages in He. apply list_elem_of_singleton in He as ->.
  discriminate Hdims.
Qed.

(** C8 (amended): for a sidecar that parses, for whose pattern
    [<dir>/<id>.{jpg,jpeg,png,gif,webp}] glob finds no file and next to
    which no [<id>.webp] lies, the entry built from it is in the index, with
    the id [<id>], [filesize: 0], [path: null] and no webp path; its
    dimensions are [{width: 0, height: 0}] unless the sidecar carries
    dimensions of its own with a non-zero width and height, which are
    kept. *)
Theorem entry_without_primary_file Date_parse glob_sync clock fs p d i m md :
  (p, d) ∈ written (generateIndex Date_parse glob_sync clock fs) →
  metadata_files fs !! i = Some m →
  sidecar fs m = Some md →
  glob_sync fs (image_pattern m) = [] →
  existsSync fs (webp_file m) = false →
  ∃ e, built_from glob_sync clock fs i e ∧ e ∈ images d ∧ id e = image_id m ∧
       filesize e = 0 ∧ path e = None ∧ webpPath e = None ∧
       dimensions e = default {| width := 0; height := 0 |} (usable (md_dimensions md)).
Proof.
  intros Hd Hi Hmd Hnone Hwebp.
  destruct (UserContentFacts.written_entry _ _ _ _ _ _ _ _ _ Hd Hi Hmd)
    as (e & r' & w & He & Hbuilt & Hin).
  exists e. split; [done|]. split; [done|].
  destruct (UserContentFacts.index_entry_fields _ _ _ _ _ _ _ _ He) as (_ & _ & Hid & _).
  split; [done|].
  by eapply UserContentFacts.index_entry_without_file.
Qed.

(** The sidecar [abc123-metadata.json] of the specification, alone in its
    directory. *)
Lemma entry_without_primary_file_witness :
  (OUTPUT_PATH, user_index 0 orphan) ∈ written (user_run 0 orphan) ∧
  metadata_files orphan !! 0%nat = Some "user-content/images/other/abc123-metadata.json" ∧
  sidecar orphan "user-content/images/other/abc123-metadata.json"
    = Some (meta None (Some "2025-01-01") None) ∧
  glob_literal orphan (image_pattern "user-content/images/other/abc123-metadata.json") = [] ∧
  existsSync orphan (webp_file "user-content/images/other/abc123-metadata.json") = false ∧
  ∃ e, built_from glob_literal (ticking 0) orphan 0 e ∧
       e ∈ images (user_index 0 orphan) ∧ id e = "abc123" ∧
       filesize e = 0 ∧ path e = None ∧ webpPath e = None ∧
       dimensions e = {| width := 0; height := 0 |}.
Proof.
  assert ((OUTPUT_PATH, user_index 0 orphan) ∈ written (user_run 0 orphan))
    as Hd by by_computation.
  assert (metadata_files orphan !! 0%nat
          = Some "user-content/images/other/abc123-metadata.json") as Hi by reflexivity.
  assert (sidecar orphan "user-content/images/other/abc123-metadata.json"
          = Some (meta None (Some "2025-01-01") None)) as Hmd by reflexivity.
  assert (glob_literal orphan
            (image_pattern "user-content/images/other/abc123-metadata.json") = [])
    as Hnone by (vm_compute; reflexivity).
  assert (existsSync orphan
            (webp_file "user-content/images/other/abc123-metadata.json") = false)
    as Hwebp by (vm_compute; reflexivity).
  split; [exact Hd|]. split; [exact Hi|]. split; [exact Hmd|].
  split; [exact Hnone|]. split; [exact Hwebp|].
  exact (entry_without_primary_file Date.iso_parse glob_literal (ticking 0) orphan _ _ _ _ _
           Hd Hi Hmd Hnone Hwebp).
Defined.

(** A sidecar whose id glob reads as a pattern: for [img[1]] glob returns
    [img1.jpg], which becomes the path of the entry, and [img[1].webp] next
    to the sidecar becomes its webp path. *)
Example bracket_id_entry :
  (λ e, (id e, path e, webpPath e, filesize e)) <$>
    images (default (user_index 0 [])
              (snd <$> head (written (generateIndex Date.iso_parse glob_bracket_id
                                        (ticking 0) bracket_id)))) =
  [("img[1]", Some "user-content/images/a/img1.jpg",
    Some "user-content/images/a/img[1].webp", 5000)].
Proof. vm_compute. reflexivity. Qed.

(** C10: every entry of a written index has an upload date that is a
    non-empty string; and for a sidecar that lacks both [uploadDate] and
    [uploadedAt], which the purge passes over, the entry built from it is in
    the index and has as its upload date, in the format of [toISOString],
    the reading of the clock taken when the loop is at this sidecar: the
    reading that follows those for the undated sidecars before it. *)
Theorem uploadDate_always_defined Date_parse glob_sync clock fs p d :
  (p, d) ∈ written (generateIndex Date_parse glob_sync clock fs) →
  (∀ e, e ∈ images d → uploadDate e ≠ "") ∧
  (∀ i m md, metadata_files fs !! i = Some m → sidecar fs m = Some md →
     md_uploadDate md = None → md_uploadedAt md = None →
     purge_eligible md = false ∧
     ∃ e, built_from glob_sync clock fs i e ∧ e ∈ images d ∧ id e = image_id m ∧
          uploadDate e = Date.toISOString (clock (readings_before fs i))).
Proof.
  intros Hd. split.
  - apply UserContentFacts.user_written_inv in Hd as (_ & _ & _ & -> & _).
    intros e He%UserContentFacts.elem_of_sort.
    apply UserContentFacts.collected_sound in He as (m & r & r' & w & _ & He).
    apply UserContentFacts.index_entry_fields in He as (md & _ & _ & _ & Hdate).
    destruct (truthy (md_uploadDate md)), (truthy (md_uploadedAt md));
      try (by destruct Hdate as (-> & ? & _)).
    destruct Hdate as [-> _]. apply UserContentFacts.toISOString_not_empty.
  - intros i m md Hi Hmd Hdate Hat. split.
    + unfold purge_eligible, purge_timestamp. rewrite Hdate, Hat.
      apply bool_decide_eq_false_2. by intros [??].
    + destruct (UserContentFacts.written_entry _ _ _ _ _ _ _ _ _ Hd Hi Hmd)
        as (e & r' & w & He & Hbuilt & Hin).
      exists e. split; [done|]. split; [done|].
      apply UserContentFacts.index_entry_fields in He as (md' & Hmd' & Hid & _ & Hd').
      rewrite Hmd in Hmd'. injection Hmd' as <-.
      rewrite Hdate, Hat in Hd'. cbn in Hd'. by destruct Hd'.
Qed.

(** A run at second 5 over two sidecars without a date: the second of them,
    the fourth sidecar of the loop, gets the second reading. *)
Lemma uploadDate_always_defined_witness :
  (OUTPUT_PATH, user_index 5000 two_undated) ∈ written (user_run 5000 two_undated) ∧
  (∀ e, e ∈ images (user_index 5000 two_undated) → uploadDate e ≠ "") ∧
  purge_eligible (meta None None None) = false ∧
  ∃ e, built_from glob_literal (ticking 5000) two_undated 3 e ∧
       e ∈ images (user_index 5000 two_undated) ∧ id e = "two" ∧
       uploadDate e = Date.toISOString (ticking 5000 1).
Proof.
  assert ((OUTPUT_PATH, user_index 5000 two_undated) ∈ written (user_run 5000 two_undated))
    as Hd by by_computation.
  destruct (uploadDate_always_defined Date.iso_parse glob_literal (ticking 5000)
              two_undated _ _ Hd) as [Hall Hundated].
  split; [exact Hd|]. split; [exact Hall|].
  apply (Hundated 3%nat "user-content/images/b/two-metadata.json" (meta None None None));
    reflexivity.
Defined.

Example two_undated_dates :
  (λ e, (id e, uploadDate e)) <$> images (user_index 5000 two_undated) =
  [("old", "2024-01-01"); ("two", "1970-01-01T00:00:06.000Z");
   ("one", "1970-01-01T00:00:05.000Z")].
Proof. vm_compute. reflexivity. Qed.

Example undated_entry_date :
  uploadDate <$> images (user_index 5000 undated) = ["1970-01-01T00:00:05.000Z"].
Proof. vm_compute. reflexivity. Qed.

(** *** Both builders *)




(** C6: in every index document that either builder writes, [totalImages]
    is the length of the images list. *)
Theorem totalImages_is_length :
  (∀ CDN_DIR OUTPUT_DIR now root p d,
     (p, d) ∈ GameAsset.written (GameAsset.buildImageIndexes CDN_DIR OUTPUT_DIR now root) →
     GameAsset.totalImages d = Z.of_nat (length (GameAsset.images d))) ∧
  (∀ Date_parse glob_sync clock fs p d,
     (p, d) ∈ written (generateIndex Date_parse glob_sync clock fs) →
     totalImages d = Z.of_nat (length (images d))).
Proof.
  split.
  - intros ?????? Hd. by apply GameAssetFacts.game_written_inv in Hd as (? & _ & _ & ? & _).
  - intros ?????? Hd. by apply UserContentFacts.user_written_inv in Hd as (_ & _ & ? & _).
Qed.

(** One game asset; four uploads. *)
Lemma totalImages_is_length_witness :
  ((GameAsset.INDEX_PATH CDN_DIR, game_index icons_fire)
     ∈ GameAsset.written (game_run icons_fire) ∧
   GameAsset.totalImages (game_index icons_fire) = 1) ∧
  ((OUTPUT_PATH, user_index 0 gallery) ∈ written (user_run 0 gallery) ∧
   totalImages (user_index 0 gallery) = 4).
Proof.
  assert ((GameAsset.INDEX_PATH CDN_DIR, game_index icons_fire)
            ∈ GameAsset.written (game_run icons_fire)) as Hgame by by_computation.
  assert ((OUTPUT_PATH, user_index 0 gallery) ∈ written (user_run 0 gallery))
    as Huser by by_computation.
  split; (split; [done|]).
  - exact (proj1 totalImages_is_length CDN_DIR CDN_DIR 1767225600000 icons_fire _ _ Hgame).
  - exact (proj2 totalImages_is_length Date.iso_parse glob_literal (ticking 0) gallery _ _ Huser).
Defined.

(** C7 (counterexample): in a working directory without the directory
    [user-content/images] the user-content builder finds no sidecar, and its
    write throws: it exits with code 1 and writes nothing. *)
Lemma missing_directory_no_index :
  ¬ ((∀ CDN_DIR OUTPUT_DIR now listing,
        GameAsset.getImagesInDirectory CDN_DIR listing = [] →
        let o := GameAsset.buildImageIndexes CDN_DIR OUTPUT_DIR now (GameAsset.Present listing) in
        GameAsset.exit_code o = 0 ∧ GameAsset.written o = [] ∧
        last (GameAsset.console o) = Some GameAsset.Warn_no_images_found) ∧
     (∀ Date_parse glob_sync clock fs,
        metadata_files fs = [] →
        let o := generateIndex Date_parse glob_sync clock fs in
        exit_code o = 0 ∧
        written o = [(OUTPUT_PATH,
                      {| version := "1.0";
                         totalImages := 0;
                         generatedDate := Date.toISOString (clock 0%nat);
                         images := [];
                         byCategory := ∅ |})])).
Proof.
  intros [_ H].
  destruct (H Date.iso_parse glob_literal (ticking 0) no_directory eq_refl) as [Hcode _].
  vm_compute in Hcode. discriminate Hcode.
Qed.

Example no_directory_run :
  exit_code (user_run 0 no_directory) = 1 ∧ written (user_run 0 no_directory) = [] ∧
  console (user_run 0 no_directory) = [Error_fatal].
Proof. vm_compute. done. Qed.

(** C7 (amended): when the scan root exists and the scan finds no image
    file below it, the game-asset builder prints a warning last, exits with
    code 0 and writes no file; when there is no sidecar and the directory
    [user-content/images] exists, [image-index.json] in it being no
    directory, the user-content builder exits with code 0 and writes one
    document: version [1.0], [totalImages: 0], the time of the run, no image
    and no category; without that directory it exits with code 1 and writes
    nothing. *)
Theorem zero_images :
  (∀ CDN_DIR OUTPUT_DIR now listing,
     GameAsset.getImagesInDirectory CDN_DIR listing = [] →
     let o := GameAsset.buildImageIndexes CDN_DIR OUTPUT_DIR now (GameAsset.Present listing) in
     GameAsset.exit_code o = 0 ∧ GameAsset.written o = [] ∧
     last (GameAsset.console o) = Some GameAsset.Warn_no_images_found) ∧
  (∀ Date_parse glob_sync clock fs,
     metadata_files fs = [] →
     let o := generateIndex Date_parse glob_sync clock fs in
     (directory_exists fs BASE_PATH = true → directory_exists fs OUTPUT_PATH = false →
      exit_code o = 0 ∧
      written o = [(OUTPUT_PATH,
                    {| version := "1.0";
                       totalImages := 0;
                       generatedDate := Date.toISOString (clock 0%nat);
                       images := [];
                       byCategory := ∅ |})]) ∧
     (directory_exists fs BASE_PATH = false → exit_code o = 1 ∧ written o = [])).
Proof.
  split.
  - intros CDN_DIR OUTPUT_DIR now listing Hnone. cbn. rewrite Hnone. cbn.
    split; [done|]. split; [done|]. apply last_snoc.
  - intros Date_parse glob_sync clock fs Hnone. cbn zeta.
    unfold generateIndex. rewrite Hnone. rewrite decide_True by done.
    unfold writeFileSync. change (Path.dirname OUTPUT_PATH) with BASE_PATH. split.
    + by intros -> ->.
    + by intros ->.
Qed.

(** A scan root without images; the directory of the uploads without
    anything in it; a working directory without that directory. *)
Lemma zero_images_witness :
  (GameAsset.getImagesInDirectory CDN_DIR
     (Some [GameAsset.DFile "README.txt" (text 10);
            GameAsset.DDir "empty" (Some []);
            GameAsset.DDir "locked" None]) = [] ∧
   GameAsset.exit_code (game_run no_images) = 0 ∧
   GameAsset.written (game_run no_images) = [] ∧
   last (GameAsset.console (game_run no_images)) = Some GameAsset.Warn_no_images_found) ∧
  (metadata_files empty_directory = [] ∧
   directory_exists empty_directory BASE_PATH = true ∧
   directory_exists empty_directory OUTPUT_PATH = false ∧
   exit_code (user_run 0 empty_directory) = 0 ∧
   written (user_run 0 empty_directory) =
     [(OUTPUT_PATH,
       {| version := "1.0"; totalImages := 0;
          generatedDate := Date.toISOString (ticking 0 0%nat);
          images := []; byCategory := ∅ |})]) ∧
  (metadata_files no_directory = [] ∧
   directory_exists no_directory BASE_PATH = false ∧
   exit_code (user_run 0 no_directory) = 1 ∧
   written (user_run 0 no_directory) = []).
Proof.
  split; [|split].
  - assert (GameAsset.getImagesInDirectory CDN_DIR
              (Some [GameAsset.DFile "README.txt" (text 10);
                     GameAsset.DDir "empty" (Some []);
                     GameAsset.DDir "locked" None]) = []) as Hnone by reflexivity.
    split; [exact Hnone|].
    exact (proj1 zero_images CDN_DIR CDN_DIR 1767225600000 _ Hnone).
  - assert (metadata_files empty_directory = []) as Hnone by reflexivity.
    assert (directory_exists empty_directory BASE_PATH = true) as Hdir by reflexivity.
    assert (directory_exists empty_directory OUTPUT_PATH = false) as Hout by reflexivity.
    split; [exact Hnone|]. split; [exact Hdir|]. split; [exact Hout|].
    exact (proj1 (proj2 zero_images Date.iso_parse glob_literal (ticking 0) _ Hnone)
             Hdir Hout).
  - assert (metadata_files no_directory = []) as Hnone by reflexivity.
    assert (directory_exists no_directory BASE_PATH = false) as Hdir by reflexivity.
    split; [exact Hnone|]. split; [exact Hdir|].
    exact (proj2 (proj2 zero_images Date.iso_parse glob_literal (ticking 0) _ Hnone) Hdir).
Defined.

(** ** Further properties of the game-asset builder *)

Module ScannerFacts.
Import Js Spec JsFacts GameAsset GameAssetFacts.

(** *** The command line *)

Lemma indexOf_Some args flag i :
  indexOf args flag = Some i ↔
  ∃ pre post, args = pre ++ flag :: post ∧ (flag ∉ pre) ∧ length pre = i.
Proof.
  revert i. induction args as [|a args IH]; intros i; cbn.
  - split; [done|]. intros (pre & post & H & _). by destruct pre.
  - case_decide as Ha.
    + subst a. split.
      * intros [= <-]. exists [], args. split; [done|]. split; [|done].
        apply not_elem_of_nil.
      * intros (pre & post & H & Hpre & <-). destruct pre as [|b pre]; [done|].
        cbn in H. simplify_eq. exfalso. apply Hpre. left.
    + split.
      * destruct (indexOf args flag) as [j|] eqn:Hj; cbn; [|done]. intros [= <-].
        destruct (proj1 (IH j) eq_refl) as (pre & post & -> & Hpre & <-).
        exists (a :: pre), post. split; [done|]. split; [|done].
        intros [->|?]%elem_of_cons; done.
      * intros (pre & post & H & Hpre & <-).
        destruct pre as [|b pre]; cbn in H; simplify_eq. cbn.
        assert (indexOf (pre ++ flag :: post) flag = Some (length pre)) as ->; [|done].
        apply IH. exists pre, post. split; [done|]. split; [|done].
        intros ?. apply Hpre. by right.
Qed.

Lemma indexOf_None args flag : indexOf args flag = None ↔ flag ∉ args.
Proof.
  induction args as [|a args IH]; cbn.
  - split; [intros _; apply not_elem_of_nil|done].
  - case_decide as Ha.
    + subst. split; [done|]. intros H. exfalso. apply H. left.
    + rewrite not_elem_of_cons. destruct (indexOf args flag); cbn.
      * split; [done|]. intros [_ H]. by apply IH in H.
      * split; [|done]. intros _. split; [done|]. by apply IH.
Qed.

(** *** The directory walk *)

(** Induction over a directory entry and, with it, the entries below. *)
Lemma Dirent_forall_ind (P : Dirent → Prop) :
  (∀ name f, P (DFile name f)) →
  (∀ name, P (DDir name None)) →
  (∀ name entries, Forall P entries → P (DDir name (Some entries))) →
  (∀ name, P (DOther name)) →
  ∀ entry, P entry.
Proof.
  intros Hfile Hnone Hsome Hother. fix IH 1.
  intros [name f|name [entries|]|name]; [apply Hfile| |apply Hnone|apply Hother].
  apply Hsome. revert entries. fix IHentries 1.
  intros [|entry entries]; constructor; [apply IH|apply IHentries].
Qed.

Lemma join_join dir d rel :
  Path.join (Path.join dir d) rel = Path.join dir (d +:+ "/" +:+ rel).
Proof. unfold Path.join. by rewrite !app_assoc. Qed.

Lemma elem_of_flat_map {A B} (g : A → list B) (l : list A) y :
  y ∈ flat_map g l ↔ ∃ x, x ∈ l ∧ y ∈ g x.
Proof.
  rewrite list_elem_of_In, in_flat_map. split.
  - intros (x & ?%list_elem_of_In & ?%list_elem_of_In). eauto.
  - intros (x & ?%list_elem_of_In & ?%list_elem_of_In). eauto.
Qed.

Lemma images_of_entry_sound entry : ∀ dir p f,
  (p, f) ∈ images_of_entry dir entry →
  (∃ name, entry = DFile name f ∧ p = Path.join dir name ∧ is_image_name name = true) ∨
  (∃ d sub rel name, entry = DDir d (Some sub) ∧ lies_at sub rel name f ∧
                     is_image_name name = true ∧ p = Path.join dir (d +:+ "/" +:+ rel)).
Proof.
  induction entry as [name f0| |d sub IH|] using Dirent_forall_ind; intros dir p f; cbn.
  - destruct (is_image_name name) eqn:Himg.
    + intros [= -> ->]%list_elem_of_singleton. left. by exists name.
    + intros H. by apply elem_of_nil in H.
  - intros H. by apply elem_of_nil in H.
  - intros (entry & Hentry & Hin)%elem_of_flat_map. right.
    rewrite Forall_forall in IH.
    destruct (IH entry Hentry _ _ _ Hin)
      as [(name & -> & -> & Himg)|(d' & sub' & rel & name & -> & Hlies & Himg & ->)].
    + exists d, sub, name, name. split; [done|]. split; [by constructor|].
      split; [done|apply join_join].
    + exists d, sub, (d' +:+ "/" +:+ rel), name. split; [done|].
      split; [by econstructor|]. split; [done|]. apply join_join.
  - intros H. by apply elem_of_nil in H.
Qed.

Lemma images_of_listing_complete entries rel name f :
  lies_at entries rel name f → is_image_name name = true →
  ∀ dir, (Path.join dir rel, f) ∈ flat_map (images_of_entry dir) entries.
Proof.
  intros Hlies Himg. induction Hlies as [entries name f Hin|entries d sub rel name f Hin _ IH];
    intros dir; apply elem_of_flat_map.
  - exists (DFile name f). split; [done|]. cbn. rewrite Himg. by apply list_elem_of_singleton.
  - exists (DDir d (Some sub)). split; [done|]. cbn. rewrite <- join_join. by apply IH.
Qed.

(** The scan finds the image files that lie below the directory, and
    nothing else. *)
Lemma elem_of_getImagesInDirectory dir entries p f :
  (p, f) ∈ getImagesInDirectory dir (Some entries) ↔
  ∃ rel name, p = Path.join dir rel ∧ lies_at entries rel name f ∧
              is_image_name name = true.
Proof.
  cbn. split.
  - intros (entry & Hentry & Hin)%elem_of_flat_map.
    destruct (images_of_entry_sound _ _ _ _ Hin)
      as [(name & -> & -> & Himg)|(d & sub & rel & name & -> & Hlies & Himg & ->)].
    + exists name, name. split; [done|]. split; [by constructor|done].
    + exists (d +:+ "/" +:+ rel), name. split; [done|]. split; [by econstructor|done].
  - intros (rel & name & -> & Hlies & Himg). by apply images_of_listing_complete with name.
Qed.

End ScannerFacts.

(** ** Further facts about paths *)

Module PathFacts.
Import Js Spec JsFacts.

Lemma split_free sep k :
  str_all (λ c, negb (sep c)) k = true → split sep k = [k].
Proof.
  intros Hk. rewrite <- (app_nil_r k) at 1.
  rewrite split_free_prefix; [done..|by left].
Qed.

Lemma split_pieces_free sep s k :
  k ∈ split sep s → str_all (λ c, negb (sep c)) k = true.
Proof. by intros [? _]%elem_of_split. Qed.

Lemma last_cons_cons {A} (x y : A) l d : List.last (x :: y :: l) d = List.last (y :: l) d.
Proof. done. Qed.

Lemma last_elem_of {A} (l : list A) d : l ≠ [] → List.last l d ∈ l.
Proof.
  induction l as [|x [|y l] IH]; intros Hne; [done|left|].
  rewrite last_cons_cons. right. by apply IH.
Qed.

(** What follows the last separator is the last piece. *)
Lemma last_split_after_sep sep pre k :
  closes_with_sep sep pre → str_all (λ c, negb (sep c)) k = true →
  List.last (split sep (pre +:+ k)) "" = k.
Proof.
  intros (pre' & d & -> & Hd) Hk. rewrite app_assoc.
  induction pre' as [|c pre' IH].
  - rewrite app_nil_l, app_cons, app_nil_l, split_cons_sep by done.
    by rewrite split_free.
  - rewrite app_cons.
    pose proof (split_not_nil sep (pre' +:+ String d "" +:+ k)) as Hne.
    destruct (sep c) eqn:Hc.
    + rewrite split_cons_sep by done.
      destruct (split sep _) eqn:E; [done|]. by rewrite last_cons_cons.
    + rewrite split_cons_free by done.
      destruct (split sep (pre' +:+ String d "" +:+ k)) as [|h [|h' t]] eqn:E; [done| |].
      * exfalso. clear IH.
        assert (k ∈ List.tl (split sep ((pre' +:+ String d "") +:+ k +:+ "")))
          as Hin by (apply split_after_sep; [by exists pre', d|done|by left]).
        rewrite JsFacts.app_nil_r, app_assoc, E in Hin. by apply elem_of_nil in Hin.
      * cbn [List.hd List.tl]. rewrite last_cons_cons. by rewrite last_cons_cons in IH.
Qed.

Lemma basename_free p : str_all (λ c, negb (is_slash c)) (Path.basename p) = true.
Proof.
  unfold Path.basename. apply (split_pieces_free is_slash p).
  apply last_elem_of, split_not_nil.
Qed.

Lemma basename_of_free name :
  str_all (λ c, negb (is_slash c)) name = true → Path.basename name = name.
Proof. intros H. unfold Path.basename. by rewrite split_free. Qed.

Lemma basename_idemp p : Path.basename (Path.basename p) = Path.basename p.
Proof. apply basename_of_free, basename_free. Qed.

Lemma extname_basename p : Path.extname (Path.basename p) = Path.extname p.
Proof. unfold Path.extname. by rewrite basename_idemp. Qed.

Lemma basename_join dir name :
  str_all (λ c, negb (is_slash c)) name = true →
  Path.basename (Path.join dir name) = name.
Proof.
  intros Hname. unfold Path.basename, Path.join.
  rewrite <- (app_assoc dir "/" name). apply last_split_after_sep; [|done].
  by exists dir, "/"%char.
Qed.

(** The relative path of a file ends with the name of the file. *)
Lemma lies_at_rel entries rel name f :
  lies_at entries rel name f →
  ∃ pre, rel = pre +:+ name ∧ (pre = "" ∨ closes_with_sep is_slash pre).
Proof.
  induction 1 as [entries name f _|entries d sub rel name f _ _ (pre & -> & Hpre)].
  - exists "". split; [done|by left].
  - exists (d +:+ "/" +:+ pre). split; [by rewrite !app_assoc|]. right.
    destruct Hpre as [->|(pre' & c & -> & Hc)].
    + exists d, "/"%char. by rewrite JsFacts.app_nil_r.
    + exists (d +:+ "/" +:+ pre'), c. by rewrite !app_assoc.
Qed.

Lemma basename_lies_at dir entries rel name f :
  lies_at entries rel name f →
  str_all (λ c, negb (is_slash c)) name = true →
  Path.basename (Path.join dir rel) = name.
Proof.
  intros (pre & -> & Hpre)%lies_at_rel Hname. unfold Path.basename, Path.join.
  rewrite <- !app_assoc. apply last_split_after_sep; [|done].
  destruct Hpre as [->|(pre' & c & -> & Hc)].
  - exists dir, "/"%char. by rewrite JsFacts.app_nil_r.
  - exists (dir +:+ "/" +:+ pre'), c. by rewrite !app_assoc.
Qed.

(** [replace(/\\/g, '/')] leaves no backslash. *)
Lemma backslash_to_slash_free s :
  str_all (λ c, negb (is_backslash c)) (backslash_to_slash s) = true.
Proof.
  induction s as [|c s IH]; [done|]. cbn. rewrite IH.
  by destruct (is_backslash c) eqn:Hc; [|rewrite Hc].
Qed.

Lemma backslash_to_slash_id s :
  str_all (λ c, negb (is_backslash c)) s = true → backslash_to_slash s = s.
Proof.
  induction s as [|c s IH]; [done|]. cbn. intros [Hc Hs]%andb_prop.
  apply negb_true_iff in Hc. by rewrite Hc, IH.
Qed.

(** *** The extension of a name *)

Local Abbreviation dotless := (str_all (λ c, negb (is_dot c))).

Lemma from_last_dot_None s : Path.from_last_dot s = None ↔ dotless s = true.
Proof.
  induction s as [|c s IH]; cbn; [done|].
  destruct (Path.from_last_dot s) as [e|].
  - split; [done|]. intros [_ H]%andb_prop. by apply IH in H.
  - destruct (is_dot c); cbn; [done|]. split; [intros _; by apply IH|done].
Qed.

Lemma from_last_dot_app b x :
  dotless x = true → Path.from_last_dot (b +:+ "." +:+ x) = Some ("." +:+ x).
Proof.
  intros Hx. induction b as [|c b IH].
  - rewrite app_nil_l, app_cons, app_nil_l. cbn.
    by rewrite (proj2 (from_last_dot_None x) Hx).
  - rewrite app_cons. cbn. by rewrite IH.
Qed.

Lemma from_last_dot_Some s e :
  Path.from_last_dot s = Some e →
  ∃ b x, s = b +:+ "." +:+ x ∧ dotless x = true ∧ e = "." +:+ x.
Proof.
  revert e. induction s as [|c s IH]; intros e; cbn; [done|].
  destruct (Path.from_last_dot s) as [e'|] eqn:Hs.
  - intros [= <-]. destruct (IH e' eq_refl) as (b & x & -> & Hx & ->).
    by exists (String c b), x.
  - destruct (is_dot c) eqn:Hc; [|done]. intros [= <-].
    apply is_dot_spec in Hc as ->. apply from_last_dot_None in Hs.
    by exists "", s.
Qed.

(** [path.dirname] on the shapes of path that Node tells apart. *)
Example dirname_examples :
  Path.dirname "user-content/images/cats/tom-metadata.json" = "user-content/images/cats" ∧
  Path.dirname "a" = "." ∧ Path.dirname "" = "." ∧ Path.dirname "/" = "/" ∧
  Path.dirname "/a" = "/" ∧ Path.dirname "//a" = "//" ∧ Path.dirname "/a/b" = "/a" ∧
  Path.dirname "a/b/" = "a" ∧ Path.dirname "a//b" = "a/" ∧ Path.dirname "a/" = ".".
Proof. repeat split. Qed.

End PathFacts.

(** ** Further properties *)

(** *** Game assets *)

(** X1: [getCLIArg] returns a value exactly when the argument that follows
    the first occurrence of the flag exists and is not empty, and then it is
    that argument; a later occurrence of the flag is never looked at. *)
Theorem getCLIArg_first_occurrence args flag value :
  GameAsset.getCLIArg args flag = Some value ↔
  value ≠ "" ∧ ∃ pre post, args = pre ++ flag :: value :: post ∧ flag ∉ pre.
Proof.
  unfold GameAsset.getCLIArg. split.
  - destruct (GameAsset.indexOf args flag) as [i|] eqn:Hi; [|done].
    apply ScannerFacts.indexOf_Some in Hi as (pre & post & -> & Hpre & <-).
    rewrite (lookup_app_r pre) by lia.
    replace (S (length pre) - length pre)%nat with 1%nat by lia.
    destruct post as [|v post]; cbn; [done|].
    destruct v as [|c v]; [done|]. intros [= <-]. split; [done|]. by exists pre, post.
  - intros (Hne & pre & post & -> & Hpre).
    assert (GameAsset.indexOf (pre ++ flag :: value :: post) flag = Some (length pre))
      as -> by (apply ScannerFacts.indexOf_Some; by exists pre, (value :: post)).
    rewrite (lookup_app_r pre) by lia.
    replace (S (length pre) - length pre)%nat with 1%nat by lia.
    cbn. by destruct value.
Qed.

(** X2: the scan of a directory returns exactly the files with an image
    name that lie below it through directories that can be read, each under
    the path that joins the directory names with slashes; what lies in a
    directory that cannot be read, and what is neither a file nor a
    directory, is left out without any effect on the rest. *)
Theorem scan_finds_image_files dir entries p f :
  (p, f) ∈ GameAsset.getImagesInDirectory dir (Some entries) ↔
  ∃ rel name, p = Path.join dir rel ∧ lies_at entries rel name f ∧
              GameAsset.is_image_name name = true.
Proof. apply ScannerFacts.elem_of_getImagesInDirectory. Qed.

(** X3: a name without a slash passes the filter of the scan exactly when
    it is a non-empty base, a dot and one of the six extensions in any mix of
    upper and lower case. *)
Theorem image_name_iff name :
  Js.str_all (λ c, negb (Js.is_slash c)) name = true →
  GameAsset.is_image_name name = true ↔
  ∃ base ext, name = base +:+ "." +:+ ext ∧ base ≠ "" ∧
    Js.toLowerCase ext ∈ ["jpg"; "jpeg"; "png"; "webp"; "gif"; "svg"].
Proof.
  intros Hname. unfold GameAsset.is_image_name, Path.extname.
  rewrite PathFacts.basename_of_free by done. rewrite bool_decide_eq_true.
  assert ("" ∉ GameAsset.image_extensions) as Hempty by by_computation.
  split.
  - destruct name as [|c rest]; [done|].
    destruct (Path.from_last_dot rest) as [e|] eqn:He; [|done].
    apply PathFacts.from_last_dot_Some in He as (b & x & -> & Hx & ->). cbn.
    intros H. exists (String c b), x. split; [done|]. split; [done|].
    rewrite JsFacts.toLowerCase_app in H.
    change (Js.toLowerCase ".") with "." in H.
    rewrite JsFacts.app_cons, JsFacts.app_nil_l in H.
    unfold GameAsset.image_extensions in H.
    repeat (apply elem_of_cons in H as [H|H];
            [injection H as ->; by_computation|]).
    by apply elem_of_nil in H.
  - intros (base & ext & -> & Hbase & Hext).
    destruct base as [|c b]; [done|]. rewrite JsFacts.app_cons.
    assert (Js.str_all (λ c, negb (Js.is_dot c)) ext = true) as Hdot.
    { assert (Js.str_all (λ c, negb (Js.is_dot c)) (Js.toLowerCase ext) = true) as Hl.
      { repeat (apply elem_of_cons in Hext as [->|Hext]; [done|]).
        by apply elem_of_nil in Hext. }
      clear -Hl. induction ext as [|c ext IH]; [done|]. cbn in *.
      apply andb_prop in Hl as [Hc Hl]. rewrite IH by done.
      by destruct c as [[] [] [] [] [] [] [] []]. }
    rewrite PathFacts.from_last_dot_app by done. cbn.
    rewrite JsFacts.toLowerCase_app. change (Js.toLowerCase ".") with ".".
    rewrite JsFacts.app_cons, JsFacts.app_nil_l.
    unfold GameAsset.image_extensions.
    repeat (apply elem_of_cons in Hext as [->|Hext]; [by_computation|]).
    by apply elem_of_nil in Hext.
Qed.

(** [Fire.PNG] passes. *)
Lemma image_name_iff_witness :
  Js.str_all (λ c, negb (Js.is_slash c)) "Fire.PNG" = true ∧
  (GameAsset.is_image_name "Fire.PNG" = true ↔
   ∃ base ext, "Fire.PNG" = base +:+ "." +:+ ext ∧ base ≠ "" ∧
     Js.toLowerCase ext ∈ ["jpg"; "jpeg"; "png"; "webp"; "gif"; "svg"]).
Proof.
  assert (Js.str_all (λ c, negb (Js.is_slash c)) "Fire.PNG" = true) as H by reflexivity.
  split; [exact H|]. exact (image_name_iff "Fire.PNG" H).
Defined.

Lemma image_entry_inv CDN_DIR p f e :
  GameAsset.image_entry CDN_DIR p f = Some e →
  ∃ st, GameAsset.stat f = Some st ∧
    GameAsset.path e = "/" +:+ Js.backslash_to_slash (Path.relative CDN_DIR p) ∧
    GameAsset.filename e = Path.basename p ∧
    GameAsset.category e = GameAsset.category_of (Path.relative CDN_DIR p) ∧
    GameAsset.filesize e = GameAsset.size st ∧
    GameAsset.lastModified e = Date.toISOString (GameAsset.mtime st) ∧
    GameAsset.dimensions e = GameAsset.getImageDimensions p f.
Proof.
  unfold GameAsset.image_entry. destruct (GameAsset.stat f) as [st|]; cbn; [|done].
  intros [= <-]. by exists st.
Qed.



(** X4: every entry of a written game-asset index stands for an image file
    below the scan root whose [stat] succeeded: its path is a slash followed
    by the file's relative path with backslashes turned into slashes, its
    category is read off that relative path, its size and modification time
    are those of the file, and its file name is the name of the file. *)
Theorem entry_is_scanned_file CDN_DIR OUTPUT_DIR now root p d e :
  (p, d) ∈ GameAsset.written (GameAsset.buildImageIndexes CDN_DIR OUTPUT_DIR now root) →
  e ∈ GameAsset.images d →
  ∃ entries rel name f st,
    root = GameAsset.Present (Some entries) ∧
    lies_at entries rel name f ∧
    GameAsset.is_image_name name = true ∧
    GameAsset.stat f = Some st ∧
    GameAsset.path e = "/" +:+ Js.backslash_to_slash rel ∧
    GameAsset.category e = GameAsset.category_of rel ∧
    GameAsset.filesize e = GameAsset.size st ∧
    GameAsset.lastModified e = Date.toISOString (GameAsset.mtime st) ∧
    (Js.str_all (λ c, negb (Js.is_slash c)) name = true → GameAsset.filename e = name).
Proof.
  intros Hd He.
  apply GameAssetFacts.game_written_inv in Hd as (listing & -> & _ & _ & Himages).
  rewrite Himages in He. apply list_elem_of_omap in He as ([q f] & Hq & He).
  destruct listing as [entries|]; [|by apply elem_of_nil in Hq].
  apply ScannerFacts.elem_of_getImagesInDirectory in Hq as (rel & name & -> & Hlies & Himg).
  apply image_entry_inv in He as (st & Hst & Hpath & Hname & Hcat & Hsize & Htime & _).
  rewrite GameAssetFacts.relative_join in Hpath, Hcat.
  exists entries, rel, name, f, st. repeat split; try done.
  intros Hfree. rewrite Hname. by eapply PathFacts.basename_lies_at.
Qed.

(** [icons/fire.png] and its entry. *)
Lemma entry_is_scanned_file_witness :
  (GameAsset.INDEX_PATH CDN_DIR, game_index icons_fire)
    ∈ GameAsset.written (game_run icons_fire) ∧
  default spirit_entry (head (GameAsset.images (game_index icons_fire)))
    ∈ GameAsset.images (game_index icons_fire) ∧
  ∃ entries rel name f st,
    icons_fire = GameAsset.Present (Some entries) ∧
    lies_at entries rel name f ∧
    GameAsset.is_image_name name = true ∧
    GameAsset.stat f = Some st ∧
    GameAsset.path (default spirit_entry (head (GameAsset.images (game_index icons_fire))))
      = "/" +:+ Js.backslash_to_slash rel ∧
    GameAsset.category (default spirit_entry (head (GameAsset.images (game_index icons_fire))))
      = GameAsset.category_of rel ∧
    GameAsset.filesize (default spirit_entry (head (GameAsset.images (game_index icons_fire))))
      = GameAsset.size st ∧
    GameAsset.lastModified (default spirit_entry (head (GameAsset.images (game_index icons_fire))))
      = Date.toISOString (GameAsset.mtime st) ∧
    (Js.str_all (λ c, negb (Js.is_slash c)) name = true →
     GameAsset.filename (default spirit_entry (head (GameAsset.images (game_index icons_fire))))
       = name).
Proof.
  assert ((GameAsset.INDEX_PATH CDN_DIR, game_index icons_fire)
            ∈ GameAsset.written (game_run icons_fire)) as Hd by by_computation.
  assert (default spirit_entry (head (GameAsset.images (game_index icons_fire)))
            ∈ GameAsset.images (game_index icons_fire)) as He by by_computation.
  split; [exact Hd|]. split; [exact He|].
  exact (entry_is_scanned_file CDN_DIR CDN_DIR 1767225600000 icons_fire _ _ _ Hd He).
Defined.



Example one_vanished_total :
  GameAsset.totalImages (game_index (GameAsset.Present (Some one_vanished))) = 1.
Proof. vm_compute. reflexivity. Qed.

(** X6: in a written game-asset index an entry whose file name has the
    extension [.svg], in any case, has no dimensions, and dimensions that are
    present never have a zero width or height. *)
Theorem dimensions_absent_or_positive CDN_DIR OUTPUT_DIR now root p d e :
  (p, d) ∈ GameAsset.written (GameAsset.buildImageIndexes CDN_DIR OUTPUT_DIR now root) →
  e ∈ GameAsset.images d →
  (Js.toLowerCase (Path.extname (GameAsset.filename e)) = ".svg" →
   GameAsset.dimensions e = None) ∧
  (∀ dims, GameAsset.dimensions e = Some dims →
     GameAsset.width dims ≠ 0 ∧ GameAsset.height dims ≠ 0).
Proof.
  intros Hd He.
  apply GameAssetFacts.game_written_inv in Hd as (listing & -> & _ & _ & Himages).
  rewrite Himages in He. apply list_elem_of_omap in He as ([q f] & _ & He).
  apply image_entry_inv in He as (st & _ & _ & Hname & _ & _ & _ & Hdims).
  rewrite Hname, PathFacts.extname_basename, Hdims.
  unfold GameAsset.getImageDimensions. split.
  - intros ->. done.
  - intros dims. destruct (String.eqb _ ".svg"); [done|].
    destruct (GameAsset.decoded f) as [dm|]; [|done].
    destruct (negb (GameAsset.width dm =? 0) && negb (GameAsset.height dm =? 0)) eqn:Hnz;
      [|done].
    intros [= <-]. apply andb_prop in Hnz as [Hw Hh].
    apply negb_true_iff in Hw, Hh. by apply Z.eqb_neq in Hw, Hh.
Qed.

(** The entry of [icons/fire.png]. *)
Lemma dimensions_absent_or_positive_witness :
  (GameAsset.INDEX_PATH CDN_DIR, game_index icons_fire)
    ∈ GameAsset.written (game_run icons_fire) ∧
  default spirit_entry (head (GameAsset.images (game_index icons_fire)))
    ∈ GameAsset.images (game_index icons_fire) ∧
  ∀ dims,
    GameAsset.dimensions (default spirit_entry (head (GameAsset.images (game_index icons_fire))))
      = Some dims →
    GameAsset.width dims ≠ 0 ∧ GameAsset.height dims ≠ 0.
Proof.
  assert ((GameAsset.INDEX_PATH CDN_DIR, game_index icons_fire)
            ∈ GameAsset.written (game_run icons_fire)) as Hd by by_computation.
  assert (default spirit_entry (head (GameAsset.images (game_index icons_fire)))
            ∈ GameAsset.images (game_index icons_fire)) as He by by_computation.
  split; [exact Hd|]. split; [exact He|].
  exact (proj2 (dimensions_absent_or_positive CDN_DIR CDN_DIR 1767225600000 icons_fire
                  _ _ _ Hd He)).
Defined.

(** X7: the path of every entry of a written game-asset index begins with
    a slash and holds no backslash. *)
Theorem entry_path_normalised CDN_DIR OUTPUT_DIR now root p d e :
  (p, d) ∈ GameAsset.written (GameAsset.buildImageIndexes CDN_DIR OUTPUT_DIR now root) →
  e ∈ GameAsset.images d →
  (∃ rest, GameAsset.path e = String "/" rest) ∧
  Js.str_all (λ c, negb (Js.is_backslash c)) (GameAsset.path e) = true.
Proof.
  intros Hd He.
  apply GameAssetFacts.game_written_inv in Hd as (listing & -> & _ & _ & Himages).
  rewrite Himages in He. apply list_elem_of_omap in He as ([q f] & _ & He).
  apply image_entry_inv in He as (st & _ & -> & _).
  split; [by eexists|].
  rewrite JsFacts.str_all_app, PathFacts.backslash_to_slash_free. done.
Qed.

(** The entry of [icons/fire.png]. *)
Lemma entry_path_normalised_witness :
  (GameAsset.INDEX_PATH CDN_DIR, game_index icons_fire)
    ∈ GameAsset.written (game_run icons_fire) ∧
  default spirit_entry (head (GameAsset.images (game_index icons_fire)))
    ∈ GameAsset.images (game_index icons_fire) ∧
  (∃ rest, GameAsset.path (default spirit_entry
                             (head (GameAsset.images (game_index icons_fire))))
           = String "/" rest) ∧
  Js.str_all (λ c, negb (Js.is_backslash c))
    (GameAsset.path (default spirit_entry (head (GameAsset.images (game_index icons_fire)))))
    = true.
Proof.
  assert ((GameAsset.INDEX_PATH CDN_DIR, game_index icons_fire)
            ∈ GameAsset.written (game_run icons_fire)) as Hd by by_computation.
  assert (default spirit_entry (head (GameAsset.images (game_index icons_fire)))
            ∈ GameAsset.images (game_index icons_fire)) as He by by_computation.
  split; [exact Hd|]. split; [exact He|].
  exact (entry_path_normalised CDN_DIR CDN_DIR 1767225600000 icons_fire _ _ _ Hd He).
Defined.

Lemma split_ext sep1 sep2 s :
  Js.str_all (λ c, bool_decide (sep1 c = sep2 c)) s = true →
  Js.split sep1 s = Js.split sep2 s.
Proof.
  induction s as [|c s IH]; [done|]. cbn. intros [Hc Hs]%andb_prop.
  apply bool_decide_eq_true in Hc. by rewrite Hc, IH.
Qed.

(** X8: on a relative path without a backslash that does not begin with a
    slash, the helper [extractCategory], which is no longer called, and the
    expression the loop uses in its place give the same category. *)
Theorem extractCategory_agrees relativePath :
  Js.str_all (λ c, negb (Js.is_backslash c)) relativePath = true →
  Js.strip_prefix "/" relativePath = None →
  GameAsset.extractCategory relativePath = GameAsset.category_of relativePath.
Proof.
  intros Hback Hslash. unfold GameAsset.extractCategory, GameAsset.category_of.
  rewrite (split_ext Js.is_path_sep Js.is_slash).
  - destruct relativePath as [|c s]; [done|].
    assert (Js.is_slash c = false) as Hc.
    { unfold Js.is_slash. destruct (Ascii.eqb_spec c "/") as [->|Hne]; [|done].
      cbn in Hslash. discriminate Hslash. }
    rewrite JsFacts.split_cons_free by done.
    by rewrite filter_cons_True.
  - clear Hslash. induction relativePath as [|c s IH]; [done|]. cbn in *.
    apply andb_prop in Hback as [Hc Hs]. rewrite IH by done.
    apply negb_true_iff in Hc. unfold Js.is_path_sep. rewrite Hc, orb_false_r.
    by rewrite bool_decide_eq_true_2.
Qed.

(** The example of the helper's comment. *)
Lemma extractCategory_agrees_witness :
  Js.str_all (λ c, negb (Js.is_backslash c)) "equipment/weapons/sword.png" = true ∧
  Js.strip_prefix "/" "equipment/weapons/sword.png" = None ∧
  GameAsset.extractCategory "equipment/weapons/sword.png"
    = GameAsset.category_of "equipment/weapons/sword.png".
Proof.
  assert (Js.str_all (λ c, negb (Js.is_backslash c)) "equipment/weapons/sword.png" = true)
    as Hback by reflexivity.
  assert (Js.strip_prefix "/" "equipment/weapons/sword.png" = None) as Hslash
    by reflexivity.
  split; [exact Hback|]. split; [exact Hslash|].
  exact (extractCategory_agrees "equipment/weapons/sword.png" Hback Hslash).
Defined.

(** ** Further facts about the user-content builder *)

Module LoopFacts.
Import Js Spec JsFacts UserContent UserContentFacts.

Section Loop.
Variable glob_sync : FileSystem → string → list string.
Variable clock : nat → Z.
Variable fs : FileSystem.

Lemma index_entry_warnings r m e r' w m' :
  index_entry glob_sync clock fs r m = Some (e, r', w) → Error_processing m' ∉ w.
Proof.
  unfold index_entry. destruct (read fs m ≫= json) as [md|]; cbn; [|done].
  unfold entry_dimensions.
  destruct (usable (md_dimensions md)) as [dims|].
  - destruct (truthy (md_uploadDate md)), (truthy (md_uploadedAt md));
      intros [= <- <- <-]; apply not_elem_of_nil.
  - destruct (read fs _) as [f|]; [destruct (decoded f)|];
      destruct (truthy (md_uploadDate md)), (truthy (md_uploadedAt md));
      intros [= <- <- <-]; try apply not_elem_of_nil;
      by intros ?%list_elem_of_singleton.
Qed.

(** The loop counts: an entry for every sidecar that parses, an error and
    an error line for every one that does not. *)
Lemma run_loop_counts files :
  length (collected (run_loop glob_sync clock fs files)) =
    length (filter (λ m, is_Some (sidecar fs m)) files) ∧
  errors (run_loop glob_sync clock fs files) =
    length (filter (λ m, sidecar fs m = None) files) ∧
  ∀ m, Error_processing m ∈ log (run_loop glob_sync clock fs files) ↔
       m ∈ files ∧ sidecar fs m = None.
Proof.
  induction files as [|m files (IHc & IHe & IHl)] using rev_ind.
  - split; [done|]. split; [done|]. intros m. cbn. split.
    + intros H. by apply elem_of_nil in H.
    + intros [H _]. by apply elem_of_nil in H.
  - rewrite run_loop_snoc, !filter_app, !length_app, !(filter_cons _ m), !filter_nil.
    unfold loop_step.
    destruct (sidecar fs m) as [md|] eqn:Hmd.
    + destruct (index_entry_Some glob_sync clock fs (clock_reads (run_loop glob_sync clock fs files)) m md Hmd)
        as (e & r' & w & He).
      rewrite He. rewrite decide_True by eauto. rewrite decide_False by done. cbn.
      rewrite length_app, IHc, IHe. cbn. split; [done|]. split; [lia|].
      intros m'. rewrite !elem_of_app, IHl, list_elem_of_singleton. split.
      * intros [[??]|Hw]; [by auto|].
        by apply (index_entry_warnings _ _ _ _ _ m') in He.
      * intros [[?| ->] Hnone]; [by auto|]. congruence.
    + rewrite index_entry_None by done.
      rewrite decide_False by (by intros [??]). rewrite decide_True by done. cbn.
      rewrite IHc, IHe. split; [lia|]. split; [lia|].
      intros m'. rewrite !elem_of_app, IHl, !list_elem_of_singleton. split.
      * intros [[??]|[= ->]]; auto.
      * intros [[?| ->] Hnone]; auto.
Qed.

Lemma needs_clock_dated m md :
  sidecar fs m = Some md →
  needs_clock fs m = true ↔
  truthy (md_uploadDate md) = None ∧ truthy (md_uploadedAt md) = None.
Proof.
  intros Hmd. unfold needs_clock. rewrite Hmd, bool_decide_eq_true. unfold dated.
  destruct (truthy (md_uploadDate md)), (truthy (md_uploadedAt md)); split;
    try (intros H; exfalso; apply H; eauto; fail); try (by intros [??]).
  - intros _. done.
  - intros _ [[??]|[??]]; done.
Qed.

(** The clock is read once for every undated sidecar, in the order of the
    loop: the [i]-th of them gets the [i]-th reading. *)
Lemma run_loop_clock files :
  clock_reads (run_loop glob_sync clock fs files) = length (List.filter (needs_clock fs) files) ∧
  ∀ i m, List.filter (needs_clock fs) files !! i = Some m →
    ∃ e, e ∈ collected (run_loop glob_sync clock fs files) ∧ id e = image_id m ∧
         uploadDate e = Date.toISOString (clock i).
Proof.
  induction files as [|m files [IHr IHe]] using rev_ind.
  - split; [done|]. intros i m H. by destruct i.
  - rewrite run_loop_snoc, List.filter_app. cbn [List.filter]. unfold loop_step.
    destruct (sidecar fs m) as [md|] eqn:Hmd.
    + destruct (index_entry_Some glob_sync clock fs (clock_reads (run_loop glob_sync clock fs files)) m md Hmd)
        as (e & r' & w & He).
      rewrite He. cbn [collected clock_reads].
      destruct (index_entry_fields _ _ _ _ _ _ _ _ He) as (md' & Hmd' & Hid & _ & Hdate).
      rewrite Hmd in Hmd'. injection Hmd' as <-.
      destruct (needs_clock fs m) eqn:Hneeds.
      * apply (needs_clock_dated m md Hmd) in Hneeds as [H1 H2].
        rewrite H1, H2 in Hdate. destruct Hdate as [Hdate ->].
        rewrite length_app. cbn. split; [lia|].
        intros i m' Hi. apply lookup_app_Some in Hi as [Hi|[Hge Hi]].
        -- destruct (IHe i m' Hi) as (e' & ? & ? & ?). exists e'.
           split; [apply elem_of_app; by left|done].
        -- destruct (i - length (List.filter (needs_clock fs) files))%nat eqn:Hd;
             [|by destruct n].
           cbn in Hi. injection Hi as <-. exists e.
           split; [apply elem_of_app; right; by apply list_elem_of_singleton|].
           split; [done|]. rewrite Hdate. do 2 f_equal. lia.
      * assert (r' = clock_reads (run_loop glob_sync clock fs files)) as ->.
        { destruct (truthy (md_uploadDate md)) eqn:H1;
            [by destruct Hdate as (_ & _ & ->)|].
          destruct (truthy (md_uploadedAt md)) eqn:H2;
            [by destruct Hdate as (_ & _ & ->)|].
          assert (needs_clock fs m = true) as Ht
            by (by apply (needs_clock_dated m md Hmd)).
          congruence. }
        rewrite List.app_nil_r. split; [done|].
        intros i m' Hi. destruct (IHe i m' Hi) as (e' & ? & ? & ?). exists e'.
        split; [apply elem_of_app; by left|done].
    + rewrite index_entry_None by done. cbn [collected clock_reads].
      assert (needs_clock fs m = false) as ->
        by (unfold needs_clock; by rewrite Hmd).
      rewrite List.app_nil_r. by split.
Qed.

End Loop.

(** *** The reduction into buckets *)

Lemma group_by_category_is_Some l :
  (∀ e, e ∈ l → category e ∉ object_prototype_keys) → is_Some (group_by_category l).
Proof.
  induction l as [|x l IH] using rev_ind; intros Hl; [by eexists|].
  rewrite group_by_category_snoc.
  destruct IH as [acc ->]; [intros e He; apply Hl, elem_of_app; by left|].
  cbn. unfold add_to_category. destruct (acc !! category x); [by eexists|].
  rewrite decide_False; [by eexists|].
  apply Hl, elem_of_app. right. by apply list_elem_of_singleton.
Qed.

Lemma group_by_category_keys l bc :
  group_by_category l = Some bc → ∀ e, e ∈ l → category e ∉ object_prototype_keys.
Proof.
  revert bc. induction l as [|x l IH] using rev_ind; intros bc Hbc e He.
  - by apply elem_of_nil in He.
  - rewrite group_by_category_snoc in Hbc.
    destruct (group_by_category l) as [acc|] eqn:Hacc; cbn in Hbc; [|done].
    apply elem_of_app in He as [He| ->%list_elem_of_singleton]; [by eapply IH|].
    unfold add_to_category in Hbc.
    destruct (acc !! category x) as [ids|] eqn:Hx.
    + destruct (group_by_category_lookup _ _ Hacc (category x)) as [Hsome _].
      destruct (Hsome ids Hx) as [Hne Hids].
      destruct (filter (λ e, category e = category x) l) as [|e' ?] eqn:Hf;
        [by subst|].
      assert (e' ∈ filter (λ e, category e = category x) l) as He' by (rewrite Hf; left).
      apply list_elem_of_filter in He' as [<- He']. by eapply IH.
    + by case_decide.
Qed.

(** The reduction throws exactly when an entry's category names a property
    of [Object.prototype]. *)
Lemma group_by_category_None l :
  group_by_category l = None ↔ ∃ e, e ∈ l ∧ category e ∈ object_prototype_keys.
Proof.
  split.
  - intros Hnone.
    destruct (decide (Exists (λ e, category e ∈ object_prototype_keys) l)) as [Hex|Hall].
    + by apply Exists_exists in Hex.
    + apply not_Exists_Forall in Hall; [|apply _]. rewrite Forall_forall in Hall.
      destruct (group_by_category_is_Some l) as [bc Hbc]; [done|congruence].
  - intros (e & He & Hkey). destruct (group_by_category l) as [bc|] eqn:Hbc; [|done].
    exfalso. by eapply group_by_category_keys.
Qed.

End LoopFacts.

(** *** User content *)

Lemma user_run_inv Date_parse glob_sync clock fs p d :
  (p, d) ∈ written (generateIndex Date_parse glob_sync clock fs) →
  exit_code (generateIndex Date_parse glob_sync clock fs) = 0 ∧
  written (generateIndex Date_parse glob_sync clock fs) = [(OUTPUT_PATH, d)] ∧
  console (generateIndex Date_parse glob_sync clock fs)
    = log (run_loop glob_sync clock fs (metadata_files fs)) ∧
  generatedDate d
    = Date.toISOString (clock (clock_reads (run_loop glob_sync clock fs (metadata_files fs)))).
Proof.
  unfold generateIndex. case_decide as Hlen.
  - destruct (writeFileSync fs OUTPUT_PATH); cbn;
      [|intros Hin; by apply elem_of_nil in Hin].
    intros Hin%list_elem_of_singleton. simplify_eq.
    apply length_zero_iff_nil in Hlen. by rewrite Hlen.
  - destruct (group_by_category _) as [bc|] eqn:Hbc; cbn;
      [|intros Hin; by apply elem_of_nil in Hin].
    destruct (writeFileSync fs OUTPUT_PATH); cbn;
      [|intros Hin; by apply elem_of_nil in Hin].
    intros Hin%list_elem_of_singleton. by simplify_eq.
Qed.

(** X9: a sidecar that cannot be read or parsed costs the run nothing but
    its own entry: the written index counts exactly the sidecars that parse,
    the console has an error line for exactly those that do not, and the two
    numbers add up to the number of sidecars found. *)
Theorem malformed_sidecars_are_skipped Date_parse glob_sync clock fs p d :
  (p, d) ∈ written (generateIndex Date_parse glob_sync clock fs) →
  totalImages d
    = Z.of_nat (length (filter (λ m, is_Some (sidecar fs m)) (metadata_files fs))) ∧
  (∀ m, Error_processing m ∈ console (generateIndex Date_parse glob_sync clock fs) ↔
        m ∈ metadata_files fs ∧ sidecar fs m = None) ∧
  totalImages d
    + Z.of_nat (length (filter (λ m, sidecar fs m = None) (metadata_files fs)))
    = Z.of_nat (length (metadata_files fs)).
Proof.
  intros Hd.
  pose proof (user_run_inv _ _ _ _ _ _ Hd) as (_ & _ & Hconsole & _).
  apply UserContentFacts.user_written_inv in Hd as (_ & _ & -> & -> & _).
  destruct (LoopFacts.run_loop_counts glob_sync clock fs (metadata_files fs)) as (Hc & He & Hl).
  rewrite Hconsole.
  assert (length (sort (by_upload_date Date_parse)
                    (collected (run_loop glob_sync clock fs (metadata_files fs))))
          = length (filter (λ m, is_Some (sidecar fs m)) (metadata_files fs))) as Hlen
    by (by rewrite UserContentFacts.sort_perm).
  rewrite Hlen. split; [done|]. split; [done|].
  rewrite <- Nat2Z.inj_add. f_equal.
  clear. induction (metadata_files fs) as [|m l IH]; [done|].
  rewrite !filter_cons. destruct (sidecar fs m) as [md|].
  - rewrite decide_True by eauto. rewrite decide_False by done. cbn. lia.
  - rewrite decide_False by (by intros [??]). rewrite decide_True by done. cbn. lia.
Qed.

(** Two broken sidecars around a good one. *)
Lemma malformed_sidecars_are_skipped_witness :
  (OUTPUT_PATH, user_index 0 mostly_broken) ∈ written (user_run 0 mostly_broken) ∧
  totalImages (user_index 0 mostly_broken) = 1 ∧
  (∀ m, Error_processing m ∈ console (user_run 0 mostly_broken) ↔
        m ∈ metadata_files mostly_broken ∧ sidecar mostly_broken m = None) ∧
  totalImages (user_index 0 mostly_broken) + 2 = 3.
Proof.
  assert ((OUTPUT_PATH, user_index 0 mostly_broken) ∈ written (user_run 0 mostly_broken))
    as Hd by by_computation.
  split; [exact Hd|].
  exact (malformed_sidecars_are_skipped Date.iso_parse glob_literal (ticking 0) mostly_broken _ _ Hd).
Defined.

(** X10: the clock is read once for every sidecar that parses and has no
    date, in the order of the loop, and once more at the end: the [i]-th such
    sidecar has an entry whose upload date is the [i]-th reading, and the
    generation date of the index is the reading after the last of them. *)
Theorem clock_readings Date_parse glob_sync clock fs p d :
  (p, d) ∈ written (generateIndex Date_parse glob_sync clock fs) →
  generatedDate d = Date.toISOString (clock (length (undated_sidecars fs))) ∧
  ∀ i m, undated_sidecars fs !! i = Some m →
    ∃ e, e ∈ images d ∧ id e = image_id m ∧
         uploadDate e = Date.toISOString (clock i).
Proof.
  intros Hd.
  pose proof (user_run_inv _ _ _ _ _ _ Hd) as (_ & _ & _ & Hdate).
  apply UserContentFacts.user_written_inv in Hd as (_ & _ & _ & -> & _).
  destruct (LoopFacts.run_loop_clock glob_sync clock fs (metadata_files fs)) as [Hreads Hentries].
  rewrite Hdate, Hreads. split; [done|].
  intros i m Hi. destruct (Hentries i m Hi) as (e & He & ? & ?).
  exists e. split; [by apply UserContentFacts.elem_of_sort|done].
Qed.

(** The undated sidecar, at second 5. *)
Lemma clock_readings_witness :
  (OUTPUT_PATH, user_index 5000 undated) ∈ written (user_run 5000 undated) ∧
  generatedDate (user_index 5000 undated) = Date.toISOString (ticking 5000 1%nat) ∧
  ∀ i m, undated_sidecars undated !! i = Some m →
    ∃ e, e ∈ images (user_index 5000 undated) ∧ id e = image_id m ∧
         uploadDate e = Date.toISOString (ticking 5000 i).
Proof.
  assert ((OUTPUT_PATH, user_index 5000 undated) ∈ written (user_run 5000 undated))
    as Hd by by_computation.
  split; [exact Hd|].
  exact (clock_readings Date.iso_parse glob_literal (ticking 5000) undated _ _ Hd).
Defined.

(** X11: a bucket of [byCategory] lists the ids of the entries of its
    category in the order of the images list, and the keys of [byCategory]
    are exactly the categories that occur in the images list. *)
Theorem buckets_follow_images Date_parse glob_sync clock fs p d c :
  (p, d) ∈ written (generateIndex Date_parse glob_sync clock fs) →
  (∀ ids, byCategory d !! c = Some ids →
     ids = id <$> filter (λ e, category e = c) (images d)) ∧
  (is_Some (byCategory d !! c) ↔ ∃ e, e ∈ images d ∧ category e = c).
Proof.
  intros (_ & _ & _ & _ & Hgroup)%UserContentFacts.user_written_inv.
  destruct (UserContentFacts.group_by_category_lookup _ _ Hgroup c) as [Hsome Hnone].
  split; [intros ids Hids; by destruct (Hsome ids Hids)|]. split.
  - intros [ids Hids]. destruct (Hsome ids Hids) as [Hne ->].
    destruct (filter (λ e, category e = c) (images d)) as [|e l] eqn:Hf; [done|].
    assert (e ∈ filter (λ e, category e = c) (images d)) as He by (rewrite Hf; left).
    apply list_elem_of_filter in He as [? ?]. eauto.
  - intros (e & He & Hc). destruct (byCategory d !! c) as [ids|] eqn:Hids; [done|].
    assert (e ∈ filter (λ e, category e = c) (images d)) as Hin
      by (by apply list_elem_of_filter).
    rewrite (Hnone eq_refl) in Hin. by apply elem_of_nil in Hin.
Qed.

(** The gallery: the dogs, newest first and the tie in the order of the
    sidecars. *)
Lemma buckets_follow_images_witness :
  (OUTPUT_PATH, user_index 0 gallery) ∈ written (user_run 0 gallery) ∧
  byCategory (user_index 0 gallery) !! "dogs" = Some ["rex"; "ace"] ∧
  ["rex"; "ace"] = id <$> filter (λ e, category e = "dogs") (images (user_index 0 gallery)).
Proof.
  assert ((OUTPUT_PATH, user_index 0 gallery) ∈ written (user_run 0 gallery))
    as Hd by by_computation.
  assert (byCategory (user_index 0 gallery) !! "dogs" = Some ["rex"; "ace"]) as Hdogs
    by (vm_compute; reflexivity).
  split; [exact Hd|]. split; [exact Hdogs|].
  exact (proj1 (buckets_follow_images Date.iso_parse glob_literal (ticking 0) gallery _ _ "dogs" Hd)
           _ Hdogs).
Defined.

(** X12: the run ends with exit code 1 exactly when the reduction or the
    write throws: when a sidecar that parses has a category that names a
    property of [Object.prototype], as [constructor] or [toString] do, when
    the directory [user-content/images] does not exist, or when
    [image-index.json] in it is a directory.  Such a run writes nothing;
    every other run exits with code 0 and writes one document, at the path
    of the index. *)
Theorem exit_code_one_iff Date_parse glob_sync clock fs :
  let o := generateIndex Date_parse glob_sync clock fs in
  (exit_code o = 1 ↔
   (∃ m md, m ∈ metadata_files fs ∧ sidecar fs m = Some md ∧
            default "other" (truthy (md_category md)) ∈ object_prototype_keys) ∨
   directory_exists fs BASE_PATH = false ∨
   directory_exists fs OUTPUT_PATH = true) ∧
  (exit_code o = 1 → written o = []) ∧
  (exit_code o ≠ 1 → exit_code o = 0 ∧ ∃ d, written o = [(OUTPUT_PATH, d)]).
Proof.
  assert (writeFileSync fs OUTPUT_PATH = false ↔
          directory_exists fs BASE_PATH = false ∨ directory_exists fs OUTPUT_PATH = true)
    as Hwrite.
  { unfold writeFileSync. change (Path.dirname OUTPUT_PATH) with BASE_PATH.
    destruct (directory_exists fs BASE_PATH), (directory_exists fs OUTPUT_PATH);
      cbn; split; auto; intros [?|?]; done. }
  cbn. unfold generateIndex. case_decide as Hlen.
  - apply length_zero_iff_nil in Hlen.
    destruct (writeFileSync fs OUTPUT_PATH) eqn:Hw; cbn.
    + split; [|split; [done|eauto]]. split; [done|].
      intros [(m & md & Hm & _)|H]; [rewrite Hlen in Hm; by apply elem_of_nil in Hm|].
      apply Hwrite in H. done.
    + split; [|split; [done|by intros ?]]. split; [|done]. intros _. right.
      by apply Hwrite.
  - destruct (group_by_category _) as [bc|] eqn:Hbc.
    + assert (¬ ∃ m md, m ∈ metadata_files fs ∧ sidecar fs m = Some md ∧
                default "other" (truthy (md_category md)) ∈ object_prototype_keys)
        as Hclean.
      { intros (m & md & Hm & Hmd & Hkey).
        destruct (UserContentFacts.collected_complete glob_sync clock fs _ m md Hm Hmd)
          as (e & r & r' & w & He & Hin).
        apply UserContentFacts.index_entry_fields in He as (md' & Hmd' & _ & Hcat & _).
        rewrite Hmd in Hmd'. injection Hmd' as <-. rewrite <- Hcat in Hkey.
        eapply LoopFacts.group_by_category_keys; [exact Hbc| |exact Hkey].
        by apply UserContentFacts.elem_of_sort. }
      destruct (writeFileSync fs OUTPUT_PATH) eqn:Hw; cbn.
      * split; [|split; [done|eauto]]. split; [done|].
        intros [H|H]; [done|]. apply Hwrite in H. done.
      * split; [|split; [done|by intros ?]]. split; [|done]. intros _. right.
        by apply Hwrite.
    + cbn. split; [|split; [done|by intros ?]]. split; [|done]. intros _. left.
      apply LoopFacts.group_by_category_None in Hbc as (e & He & Hkey).
      apply UserContentFacts.elem_of_sort in He.
      apply UserContentFacts.collected_sound in He as (m & r & r' & w & Hm & He).
      apply UserContentFacts.index_entry_fields in He as (md & Hmd & _ & Hcat & _).
      exists m, md. by rewrite <- Hcat.
Qed.

Example poisoned_run_fails :
  exit_code (user_run 0 poisoned) = 1 ∧ written (user_run 0 poisoned) = [].
Proof. vm_compute. done. Qed.

(** *** Sidecars and their files *)

(** X13: the primary file of an entry is one of the files that glob
    returns for the pattern of its sidecar, and it is a [.webp] file only
    when every file that glob returns is one; the path is [null] exactly
    when glob returns nothing, and then the size is 0; otherwise the size is
    that of the primary file, 0 when it cannot be found.  The webp path is
    set exactly when [<dir>/<id>.webp] exists. *)
Theorem primary_file_choice Date_parse glob_sync clock fs p d e :
  (p, d) ∈ written (generateIndex Date_parse glob_sync clock fs) →
  e ∈ images d →
  ∃ m md, m ∈ metadata_files fs ∧ sidecar fs m = Some md ∧ id e = image_id m ∧
    let found := glob_sync fs (image_pattern m) in
    (path e = None ↔ found = []) ∧
    (path e = None → filesize e = 0) ∧
    (∀ q, path e = Some q →
       ∃ f, f ∈ found ∧ q = Js.backslash_to_slash f ∧
            filesize e = from_option size 0 (read fs f) ∧
            (Js.endsWith f ".webp" = true →
             Forall (λ g, Js.endsWith g ".webp" = true) found)) ∧
    (webpPath e = if existsSync fs (webp_file m)
                  then Some (Js.backslash_to_slash (webp_file m)) else None).
Proof.
  intros (_ & _ & _ & -> & _)%UserContentFacts.user_written_inv
         He%UserContentFacts.elem_of_sort.
  apply UserContentFacts.collected_sound in He as (m & r & r' & w & Hm & He).
  destruct (UserContentFacts.index_entry_fields _ _ _ _ _ _ _ _ He) as (md & Hmd & Hid & _).
  exists m, md. split; [done|]. split; [done|]. split; [done|].
  destruct (UserContentFacts.index_entry_files _ _ _ _ _ _ _ _ He)
    as (Hpath & Hwebp & Hsize & _).
  cbn zeta in *. rewrite Hpath, Hsize. split; [|split; [|split; [|done]]].
  - destruct (List.find _ _) as [f|] eqn:Hfind; cbn.
    + split; [done|]. intros Hnil. by rewrite Hnil in Hfind.
    + destruct (glob_sync fs (image_pattern m)); by cbn.
  - destruct (List.find _ _) as [f|] eqn:Hfind; cbn; [done|].
    by destruct (head _).
  - intros q. destruct (List.find _ _) as [f|] eqn:Hfind; cbn.
    + intros [= <-]. exists f. apply find_some in Hfind as [Hin Hf].
      split; [by apply list_elem_of_In|]. split; [done|].
      split; [by destruct (read fs f)|].
      intros Hwebpf. rewrite Hwebpf in Hf. done.
    + destruct (glob_sync fs (image_pattern m)) as [|f found] eqn:Hfound; cbn; [done|].
      intros [= <-]. exists f. split; [left|]. split; [done|].
      split; [by destruct (read fs f)|]. intros _.
      apply Forall_forall. intros g Hg%list_elem_of_In.
      apply (find_none _ _ Hfind) in Hg. by apply negb_false_iff in Hg.
Qed.

(** The newest upload of the gallery has only a [.webp] file. *)
Lemma primary_file_choice_witness :
  (OUTPUT_PATH, user_index 0 gallery) ∈ written (user_run 0 gallery) ∧
  default (orphan_entry {| width := 0; height := 0 |}) (head (images (user_index 0 gallery)))
    ∈ images (user_index 0 gallery) ∧
  ∃ m md, m ∈ metadata_files gallery ∧ sidecar gallery m = Some md ∧
    id (default (orphan_entry {| width := 0; height := 0 |})
          (head (images (user_index 0 gallery)))) = image_id m ∧
    let e := default (orphan_entry {| width := 0; height := 0 |})
               (head (images (user_index 0 gallery))) in
    let found := glob_literal gallery (image_pattern m) in
    (path e = None ↔ found = []) ∧
    (path e = None → filesize e = 0) ∧
    (∀ q, path e = Some q →
       ∃ f, f ∈ found ∧ q = Js.backslash_to_slash f ∧
            filesize e = from_option size 0 (read gallery f) ∧
            (Js.endsWith f ".webp" = true →
             Forall (λ g, Js.endsWith g ".webp" = true) found)) ∧
    (webpPath e = if existsSync gallery (webp_file m)
                  then Some (Js.backslash_to_slash (webp_file m)) else None).
Proof.
  assert ((OUTPUT_PATH, user_index 0 gallery) ∈ written (user_run 0 gallery))
    as Hd by by_computation.
  assert (default (orphan_entry {| width := 0; height := 0 |})
            (head (images (user_index 0 gallery)))
          ∈ images (user_index 0 gallery)) as He by by_computation.
  split; [exact Hd|]. split; [exact He|].
  exact (primary_file_choice Date.iso_parse glob_literal (ticking 0) gallery _ _ _ Hd He).
Defined.

Example webp_only_entry :
  (λ e, (id e, path e, webpPath e)) <$> head (images (user_index 0 gallery)) =
  Some ("kit", Some "user-content/images/cats/kit.webp",
        Some "user-content/images/cats/kit.webp").
Proof. vm_compute. reflexivity. Qed.

(** *** Time stamps *)

Module DateFacts.
Import Date.

(** The calendar: [civil_of_days] gives a month and a day of the calendar, and
    [days_of_civil] leads back from them. *)
Lemma day_of_era z : 0 ≤ z - z / 146097 * 146097 ≤ 146096.
Proof. Z.div_mod_to_equations. lia. Qed.

Lemma year_of_era doe :
  0 ≤ doe ≤ 146096 →
  let yoe := (doe - doe / 1460 + doe / 36524 - doe / 146096) / 365 in
  let doy := doe - (365 * yoe + yoe / 4 - yoe / 100) in
  0 ≤ yoe ≤ 399 ∧ 0 ≤ doy ≤ 365.
Proof. intros H. cbv zeta. Z.div_mod_to_equations. lia. Qed.

Lemma month_of_year doy :
  0 ≤ doy ≤ 365 →
  let mp := (5 * doy + 2) / 153 in
  0 ≤ mp ≤ 11 ∧ 1 ≤ doy - (153 * mp + 2) / 5 + 1 ≤ 31.
Proof. intros H. cbv zeta. Z.div_mod_to_equations. lia. Qed.

Lemma civil_of_days_spec z :
  let '(y, m, d) := civil_of_days z in
  1 ≤ m ≤ 12 ∧ 1 ≤ d ≤ 31 ∧ days_of_civil y m d = z.
Proof.
  unfold civil_of_days, days_of_civil. cbv zeta.
  pose proof (day_of_era (z + 719468)) as Hdoe.
  set (era := (z + 719468) / 146097) in *.
  set (doe := z + 719468 - era * 146097) in *.
  pose proof (year_of_era doe Hdoe) as [Hyoe Hdoy]. cbv zeta in Hyoe, Hdoy.
  set (yoe := (doe - doe / 1460 + doe / 36524 - doe / 146096) / 365) in *.
  set (doy := doe - (365 * yoe + yoe / 4 - yoe / 100)) in *.
  pose proof (month_of_year doy Hdoy) as [Hmp Hd]. cbv zeta in Hmp, Hd.
  set (mp := (5 * doy + 2) / 153) in *.
  destruct (mp <? 10) eqn:Hlt; [apply Z.ltb_lt in Hlt|apply Z.ltb_ge in Hlt].
  - rewrite (proj2 (Z.leb_gt (mp + 3) 2)) by lia.
    rewrite (proj2 (Z.ltb_lt 2 (mp + 3))) by lia.
    replace (mp + 3 - 3) with mp by lia. rewrite Z.add_0_r.
    assert ((yoe + era * 400) / 400 = era) as -> by (Z.div_mod_to_equations; lia).
    replace (yoe + era * 400 - era * 400) with yoe by lia.
    subst doy doe. repeat split; lia.
  - rewrite (proj2 (Z.leb_le (mp - 9) 2)) by lia.
    rewrite (proj2 (Z.ltb_ge 2 (mp - 9))) by lia.
    replace (mp - 9 + 9) with mp by lia.
    replace (yoe + era * 400 + 1 - 1) with (yoe + era * 400) by lia.
    assert ((yoe + era * 400) / 400 = era) as -> by (Z.div_mod_to_equations; lia).
    replace (yoe + era * 400 - era * 400) with yoe by lia.
    subst doy doe. repeat split; lia.
Qed.

Lemma civil_of_days_year z :
  -719528 ≤ z ≤ 2932896 → 0 ≤ (civil_of_days z).1.1 ≤ 9999.
Proof.
  intros Hz. unfold civil_of_days. cbv zeta. cbn [fst].
  pose proof (day_of_era (z + 719468)) as Hdoe.
  set (era := (z + 719468) / 146097) in *.
  set (doe := z + 719468 - era * 146097) in *.
  pose proof (year_of_era doe Hdoe) as [Hyoe Hdoy]. cbv zeta in Hyoe, Hdoy.
  set (yoe := (doe - doe / 1460 + doe / 36524 - doe / 146096) / 365) in *.
  set (doy := doe - (365 * yoe + yoe / 4 - yoe / 100)) in *.
  pose proof (month_of_year doy Hdoy) as [Hmp Hd]. cbv zeta in Hmp, Hd.
  set (mp := (5 * doy + 2) / 153) in *.
  assert (-1 ≤ era ≤ 24) as Hera by (subst era; Z.div_mod_to_equations; lia).
  assert (era = -1 → 146037 ≤ doe) as Hlow by (subst doe era; Z.div_mod_to_equations; lia).
  assert (era = 24 → doe ≤ 146036) as Hhigh by (subst doe era; Z.div_mod_to_equations; lia).
  assert (146037 ≤ doe → yoe = 399 ∧ 306 ≤ doy) as Hlast
    by (intros ?; subst doy yoe; Z.div_mod_to_equations; lia).
  assert (doe ≤ 146036 → yoe ≤ 398 ∨ doy ≤ 305) as Hfirst
    by (intros ?; subst doy yoe; Z.div_mod_to_equations; lia).
  assert (306 ≤ doy -> 10 ≤ mp) as Hmlow by (intros ?; subst mp; Z.div_mod_to_equations; lia).
  assert (doy ≤ 305 -> mp ≤ 9) as Hmhigh by (intros ?; subst mp; Z.div_mod_to_equations; lia).
  destruct (mp <? 10) eqn:Hlt; [apply Z.ltb_lt in Hlt|apply Z.ltb_ge in Hlt].
  - rewrite (proj2 (Z.leb_gt (mp + 3) 2)) by lia. lia.
  - rewrite (proj2 (Z.leb_le (mp - 9) 2)) by lia. lia.
Qed.

(** The digits that [toISOString] prints are the ones the parser reads. *)
Local Abbreviation value c := (Z.of_N (N_of_ascii c) - 48).

Lemma digit_char_spec d :
  0 ≤ d ≤ 9 → Js.is_digit (digit_char d) = true ∧ value (digit_char d) = d.
Proof.
  intros H.
  assert (d = 0 ∨ d = 1 ∨ d = 2 ∨ d = 3 ∨ d = 4 ∨ d = 5 ∨ d = 6 ∨ d = 7 ∨
          d = 8 ∨ d = 9) as Hd by lia.
  repeat destruct Hd as [->|Hd]; try subst d; by split.
Qed.

Lemma digits_2 n : digits 2 n = String (digit_char (n / 10 mod 10)) (String (digit_char (n mod 10)) "").
Proof. reflexivity. Qed.
Lemma digits_3 n :
  digits 3 n = String (digit_char (n / 10 / 10 mod 10))
                 (String (digit_char (n / 10 mod 10)) (String (digit_char (n mod 10)) "")).
Proof. reflexivity. Qed.
Lemma digits_4 n :
  digits 4 n = String (digit_char (n / 10 / 10 / 10 mod 10))
                (String (digit_char (n / 10 / 10 mod 10))
                 (String (digit_char (n / 10 mod 10)) (String (digit_char (n mod 10)) ""))).
Proof. reflexivity. Qed.

Lemma field_digits s start len :
  String.length (String.substring start len s) = len →
  Js.str_all Js.is_digit (String.substring start len s) = true →
  field s start len = Some (number_of 0 (String.substring start len s)).
Proof. intros H1 H2. unfold field. by rewrite decide_True, H2. Qed.

Lemma iso_parse_printed (y3 y2 y1 y0 m1 m0 d1 d0 h1 h0 i1 i0 s1 s0 q2 q1 q0 : ascii) :
  Forall (λ c, Js.is_digit c = true)
    [y3; y2; y1; y0; m1; m0; d1; d0; h1; h0; i1; i0; s1; s0; q2; q1; q0] →
  let y := 1000 * value y3 + 100 * value y2 + 10 * value y1 + value y0 in
  let m := 10 * value m1 + value m0 in
  let d := 10 * value d1 + value d0 in
  let hh := 10 * value h1 + value h0 in
  let mm := 10 * value i1 + value i0 in
  let ss := 10 * value s1 + value s0 in
  let ms := 100 * value q2 + 10 * value q1 + value q0 in
  in_range 1 m 12 = true → in_range 1 d 31 = true → in_range 0 hh 23 = true →
  in_range 0 mm 59 = true → in_range 0 ss 59 = true →
  iso_parse
    (String y3 (String y2 (String y1 (String y0 (String "-" (String m1 (String m0
     (String "-" (String d1 (String d0 (String "T" (String h1 (String h0
     (String ":" (String i1 (String i0 (String ":" (String s1 (String s0
     (String "." (String q2 (String q1 (String q0 "Z")))))))))))))))))))))))
  = Some (days_of_civil y m d * ms_per_day + hh * 3600000 + mm * 60000 + ss * 1000 + ms).
Proof.
  intros all_digits y m d hh mm ss ms Hm Hd Hhh Hmm Hss.
  repeat (apply Forall_cons in all_digits as [? all_digits]).
  unfold iso_parse.
  rewrite !field_digits
    by (cbn [String.substring String.length Js.str_all];
        by repeat match goal with H : Js.is_digit _ = true |- _ => rewrite H; clear H end).
  cbn [String.substring number_of mbind option_bind option_ret mret].
  change (has_char _ 4 "-") with true. change (has_char _ 7 "-") with true.
  change (has_char _ 10 "T") with true. change (has_char _ 13 ":") with true.
  change (has_char _ 16 ":") with true. change (has_char _ 19 ".") with true.
  change (has_char _ 23 "Z") with true.
  cbn [String.length andb].
  rewrite decide_False by done. rewrite decide_True by done.
  replace (10 * (10 * (10 * (10 * 0 + value y3) + value y2) + value y1) + value y0)
    with y by (unfold y; lia).
  replace (10 * (10 * 0 + value m1) + value m0) with m by (unfold m; lia).
  replace (10 * (10 * 0 + value d1) + value d0) with d by (unfold d; lia).
  replace (10 * (10 * 0 + value h1) + value h0) with hh by (unfold hh; lia).
  replace (10 * (10 * 0 + value i1) + value i0) with mm by (unfold mm; lia).
  replace (10 * (10 * 0 + value s1) + value s0) with ss by (unfold ss; lia).
  replace (10 * (10 * (10 * 0 + value q2) + value q1) + value q0) with ms
    by (unfold ms; lia).
  by rewrite Hm, Hd, Hhh, Hmm, Hss.
Qed.

Lemma digit_mod n :
  Js.is_digit (digit_char (n mod 10)) = true ∧ value (digit_char (n mod 10)) = n mod 10.
Proof. apply digit_char_spec. pose proof (Z.mod_pos_bound n 10). lia. Qed.

Lemma in_range_true lo x hi : lo ≤ x ≤ hi → in_range lo x hi = true.
Proof. intros. unfold in_range. apply andb_true_intro. split; lia. Qed.

Lemma iso_parse_fields y m d hh mm ss ms :
  0 ≤ y ≤ 9999 → 1 ≤ m ≤ 12 → 1 ≤ d ≤ 31 →
  0 ≤ hh ≤ 23 → 0 ≤ mm ≤ 59 → 0 ≤ ss ≤ 59 → 0 ≤ ms ≤ 999 →
  iso_parse (digits 4 y +:+ "-" +:+ digits 2 m +:+ "-" +:+ digits 2 d +:+ "T" +:+
             digits 2 hh +:+ ":" +:+ digits 2 mm +:+ ":" +:+ digits 2 ss +:+ "." +:+
             digits 3 ms +:+ "Z")
  = Some (days_of_civil y m d * ms_per_day + hh * 3600000 + mm * 60000 + ss * 1000 + ms).
Proof.
  intros Hy Hm Hd Hhh Hmm Hss Hms.
  rewrite digits_4, !digits_2, digits_3.
  etrans; [apply iso_parse_printed|].
  - repeat constructor; apply digit_mod.
  - rewrite !(proj2 (digit_mod _)). apply in_range_true. Z.div_mod_to_equations; lia.
  - rewrite !(proj2 (digit_mod _)). apply in_range_true. Z.div_mod_to_equations; lia.
  - rewrite !(proj2 (digit_mod _)). apply in_range_true. Z.div_mod_to_equations; lia.
  - rewrite !(proj2 (digit_mod _)). apply in_range_true. Z.div_mod_to_equations; lia.
  - rewrite !(proj2 (digit_mod _)). apply in_range_true. Z.div_mod_to_equations; lia.
  - rewrite !(proj2 (digit_mod _)). f_equal.
    repeat f_equal; Z.div_mod_to_equations; lia.
Qed.

(** Within the years 0 to 9999 the parser reads a time value back from the
    string that [toISOString] prints for it. *)
Lemma iso_parse_toISOString t :
  -62167219200000 ≤ t ≤ 253402300799999 →
  iso_parse (toISOString t) = Some t.
Proof.
  intros Ht. unfold toISOString.
  pose proof (civil_of_days_spec (t / ms_per_day)) as Hc.
  pose proof (civil_of_days_year (t / ms_per_day)) as Hyear.
  destruct (civil_of_days (t / ms_per_day)) as [[y m] d].
  destruct Hc as (Hm & Hd & Hback). cbn [fst] in Hyear.
  assert (0 ≤ y ≤ 9999) as Hy.
  { apply Hyear. unfold ms_per_day. Z.div_mod_to_equations. lia. }
  assert ((0 <=? y) && (y <=? 9999) = true) as ->
    by (apply andb_true_intro; split; lia).
  pose proof (Z.mod_pos_bound t ms_per_day eq_refl) as Hr.
  unfold ms_per_day in Hr.
  rewrite iso_parse_fields; try done; try (unfold ms_per_day; Z.div_mod_to_equations; lia).
  f_equal. rewrite Hback. unfold ms_per_day in *. Z.div_mod_to_equations. lia.
Qed.
End DateFacts.

(** X15: the date that the loop stamps on an undated sidecar is read back by
    the comparator of the sort as the clock reading it was printed from, for
    a clock within the years 0 to 9999: the entry of the [i]-th undated
    sidecar has the [i]-th reading as its upload time. *)
Theorem stamped_date_reads_back glob_sync clock fs p d i m :
  (p, d) ∈ written (generateIndex Date.iso_parse glob_sync clock fs) →
  undated_sidecars fs !! i = Some m →
  -62167219200000 ≤ clock i ≤ 253402300799999 →
  ∃ e, e ∈ images d ∧ id e = image_id m ∧
       upload_time Date.iso_parse e = Some (clock i).
Proof.
  intros (_ & _ & _ & -> & _)%UserContentFacts.user_written_inv Hi Hclock.
  destruct (LoopFacts.run_loop_clock glob_sync clock fs (metadata_files fs)) as [_ Hentries].
  destruct (Hentries i m Hi) as (e & He & Hid & Hdate).
  exists e. split; [by apply UserContentFacts.elem_of_sort|]. split; [done|].
  unfold upload_time. rewrite Hdate. by apply DateFacts.iso_parse_toISOString.
Qed.

(** The undated sidecar, at second 5. *)
Lemma stamped_date_reads_back_witness :
  (OUTPUT_PATH, user_index 5000 undated) ∈ written (user_run 5000 undated) ∧
  undated_sidecars undated !! 0%nat
    = Some "user-content/images/other/abc123-metadata.json" ∧
  -62167219200000 ≤ ticking 5000 0 ≤ 253402300799999 ∧
  ∃ e, e ∈ images (user_index 5000 undated) ∧
       id e = image_id "user-content/images/other/abc123-metadata.json" ∧
       upload_time Date.iso_parse e = Some (ticking 5000 0).
Proof.
  assert ((OUTPUT_PATH, user_index 5000 undated) ∈ written (user_run 5000 undated))
    as Hd by by_computation.
  assert (undated_sidecars undated !! 0%nat
          = Some "user-content/images/other/abc123-metadata.json") as Hi by reflexivity.
  assert (-62167219200000 ≤ ticking 5000 0 ≤ 253402300799999) as Hclock
    by (vm_compute; split; discriminate).
  split; [exact Hd|]. split; [exact Hi|]. split; [exact Hclock|].
  exact (stamped_date_reads_back glob_literal (ticking 5000) undated _ _ 0%nat _ Hd Hi Hclock).
Defined.
